(** * email-Agent: the gateway, the response interpreters, the thread
      context collector and the ingestion pipeline of [utils.py]

    The development embeds the functions of [utils.py] in Rocq and proves
    the properties of the specification about them.

    - Python [str] values are sequences of Unicode code points
      ([pystr := list N]); the string methods the code calls ([replace],
      [strip], [startswith], [splitlines], [join], slicing) are defined on
      them as CPython defines them.
    - Values that travel through the program (emails, prompt templates,
      categories, result records) are what [json.load] produces, so they
      are modelled by the inductive type [json]; a Python [dict] is an
      insertion-ordered association list.
    - [json.loads] is modelled by an executable parser following CPython's
      [json.decoder] and [json.scanner].
    - Exceptions are explicit: effectful functions live in a small
      state-and-exception monad, and [try ... except Exception] is the
      combinator [try_except].  State written before a [raise] persists,
      as in Python. *)

From Stdlib Require Import String Ascii NArith ZArith QArith DecimalString Lia.
From Stdlib Require DecimalFacts DecimalPos.
From stdpp Require Import base list.

Set Default Proof Using "Type".
#[local] Set Warnings "-register-all".

(** ** Python strings *)

Module PyStr.

Definition char := N.
Definition pystr := list char.

(** An ASCII literal of the source as a [pystr]. *)
Definition lit (s : string) : pystr := map N_of_ascii (list_ascii_of_string s).
Arguments lit s%_string.

Definition NL : pystr := [10%N].
Definition TAB : char := 9%N.
Definition BULLET : char := 8226%N.   (* U+2022 *)

Fixpoint streq (a b : pystr) : bool :=
  match a, b with
  | [], [] => true
  | x :: a', y :: b' => (x =? y)%N && streq a' b'
  | _, _ => false
  end.

(** [s.startswith(p)] *)
Fixpoint startswith (s p : pystr) : bool :=
  match p, s with
  | [], _ => true
  | _ :: _, [] => false
  | a :: p', b :: s' => (a =? b)%N && startswith s' p'
  end.

(** [s.replace(old, new)]: every non-overlapping occurrence of [old],
    found from the left, is replaced by [new].  [skip] counts the
    characters of a matched occurrence still to be dropped. *)
Fixpoint replace_from (old new : pystr) (skip : nat) (s : pystr) : pystr :=
  match s with
  | [] => []
  | c :: s' =>
      match skip with
      | S k => replace_from old new k s'
      | O =>
          if startswith s old
          then new ++ replace_from old new (pred (length old)) s'
          else c :: replace_from old new 0 s'
      end
  end.

Definition replace (s old new : pystr) : pystr :=
  match old with
  | [] => new ++ flat_map (fun c => c :: new) s
  | _ :: _ => replace_from old new 0 s
  end.

Definition in_range (lo hi c : N) : bool := ((lo <=? c) && (c <=? hi))%N.

(** [str.isspace] on one code point (CPython's [_PyUnicode_IsWhitespace]). *)
Definition isspace (c : char) : bool :=
  in_range 9 13 c || in_range 28 32 c || (c =? 133)%N || (c =? 160)%N
  || (c =? 5760)%N || in_range 8192 8202 c || (c =? 8232)%N || (c =? 8233)%N
  || (c =? 8239)%N || (c =? 8287)%N || (c =? 12288)%N.

(** The line boundaries of [str.splitlines]
    (CPython's [_PyUnicode_IsLinebreak]). *)
Definition islinebreak (c : char) : bool :=
  in_range 10 13 c || in_range 28 30 c || (c =? 133)%N
  || (c =? 8232)%N || (c =? 8233)%N.

Fixpoint lstrip_by (f : char -> bool) (s : pystr) : pystr :=
  match s with
  | [] => []
  | c :: s' => if f c then lstrip_by f s' else s
  end.

Definition rstrip_by (f : char -> bool) (s : pystr) : pystr :=
  rev (lstrip_by f (rev s)).

Definition strip_by (f : char -> bool) (s : pystr) : pystr :=
  rstrip_by f (lstrip_by f s).

(** [s.strip()] *)
Definition strip (s : pystr) : pystr := strip_by isspace s.

(** [s.strip(chars)] *)
Definition strip_chars (chars s : pystr) : pystr :=
  strip_by (fun c => existsb (N.eqb c) chars) s.

(** [s.splitlines()]: [cur] is the current line, reversed.  A line break
    closes the current line; CR followed by LF counts as one break; nothing is
    produced after a final break. *)
Fixpoint splitlines_from (cur : pystr) (s : pystr) : list pystr :=
  match s with
  | [] => match cur with [] => [] | _ :: _ => [rev cur] end
  | c :: s' =>
      if islinebreak c then
        rev cur ::
        match s' with
        | d :: s'' =>
            if ((c =? 13) && (d =? 10))%N
            then splitlines_from [] s''
            else splitlines_from [] s'
        | [] => []
        end
      else splitlines_from (c :: cur) s'
  end.

Definition splitlines (s : pystr) : list pystr := splitlines_from [] s.

(** [sep.join(xs)] *)
Fixpoint join (sep : pystr) (xs : list pystr) : pystr :=
  match xs with
  | [] => []
  | x :: xs' =>
      match xs' with
      | [] => x
      | _ :: _ => x ++ sep ++ join sep xs'
      end
  end.

(** Truthiness of a [str]: non-empty. *)
Definition truthy (s : pystr) : bool :=
  match s with [] => false | _ :: _ => true end.

End PyStr.
Export PyStr.

(** ** JSON values and Python dictionaries *)

(** What [json.load] / [json.loads] can return.  A float is kept as the
    literal it was read from: the code never computes with one. *)
Inductive json :=
| JNull
| JBool (b : bool)
| JInt (z : Z)
| JFloat (lexeme : pystr)
| JStr (s : pystr)
| JArr (xs : list json)
| JObj (fields : list (pystr * json)).

(** A Python [dict] with [str] keys: insertion-ordered, one entry per key. *)
Definition dict := list (pystr * json).

(** [d.get(k)] *)
Fixpoint dict_get (k : pystr) (d : dict) : option json :=
  match d with
  | [] => None
  | (k', v) :: d' => if streq k k' then Some v else dict_get k d'
  end.

(** [d.get(k, dflt)] *)
Definition dict_get_default (k : pystr) (dflt : json) (d : dict) : json :=
  match dict_get k d with
  | Some v => v
  | None => dflt
  end.

(** [d[k] = v]: an existing key keeps its position, a new key goes last. *)
Fixpoint dict_set (k : pystr) (v : json) (d : dict) : dict :=
  match d with
  | [] => [(k, v)]
  | (k', v') :: d' =>
      if streq k k' then (k', v) :: d' else (k', v') :: dict_set k v d'
  end.

(** The entries of [d] whose key is not in [ks], in order. *)
Definition dict_without (ks : list pystr) (d : dict) : dict :=
  List.filter (fun kv => negb (existsb (streq (fst kv)) ks)) d.

(** [type(v).__name__] *)
Definition type_name (v : json) : pystr :=
  match v with
  | JNull => lit "NoneType"
  | JBool _ => lit "bool"
  | JInt _ => lit "int"
  | JFloat _ => lit "float"
  | JStr _ => lit "str"
  | JArr _ => lit "list"
  | JObj _ => lit "dict"
  end.

(** ** [json.loads] *)

Module JsonDecoder.

(** [WHITESPACE]: space, tab, line feed, carriage return. *)
Definition is_ws (c : char) : bool :=
  ((c =? 32) || (c =? 9) || (c =? 10) || (c =? 13))%N.

Definition skip_ws (s : pystr) : pystr := lstrip_by is_ws s.

Definition is_digit (c : char) : bool := in_range 48 57 c.

Fixpoint span_digits (s : pystr) : pystr * pystr :=
  match s with
  | [] => ([], [])
  | c :: s' =>
      if is_digit c
      then let '(ds, r) := span_digits s' in (c :: ds, r)
      else ([], s)
  end.

(** Group 1 of [NUMBER_RE]: an optional minus sign, then either a single
    zero or a non-zero digit followed by digits. *)
Definition scan_int (s : pystr) : option (pystr * pystr) :=
  let '(sign, s1) :=
    match s with
    | c :: t => if (c =? 45)%N then ([c], t) else ([], s)
    | [] => ([], s)
    end in
  match s1 with
  | [] => None
  | c :: t =>
      if (c =? 48)%N then Some (sign ++ [c], t)
      else if is_digit c
           then let '(ds, r) := span_digits s1 in Some (sign ++ ds, r)
           else None
  end.

(** Group 2: a dot followed by at least one digit. *)
Definition scan_frac (s : pystr) : option (pystr * pystr) :=
  match s with
  | c :: t =>
      if (c =? 46)%N then
        match span_digits t with
        | ([], _) => None
        | (ds, r) => Some (c :: ds, r)
        end
      else None
  | [] => None
  end.

(** Group 3: e or E, an optional sign, at least one digit. *)
Definition scan_exp (s : pystr) : option (pystr * pystr) :=
  match s with
  | c :: t =>
      if ((c =? 101) || (c =? 69))%N then
        let '(sign, t1) :=
          match t with
          | d :: u => if ((d =? 43) || (d =? 45))%N then ([d], u) else ([], t)
          | [] => ([], t)
          end in
        match span_digits t1 with
        | ([], _) => None
        | (ds, r) => Some (c :: sign ++ ds, r)
        end
      else None
  | [] => None
  end.

Definition digit_val (c : char) : Z := Z.of_N (c - 48).

(** [int(lexeme)] for a lexeme matched by [scan_int]. *)
Definition int_of_lexeme (l : pystr) : Z :=
  let nat_val ds := fold_left (fun acc c => (10 * acc + digit_val c)%Z) ds 0%Z in
  match l with
  | c :: ds => if (c =? 45)%N then (- nat_val ds)%Z else nat_val l
  | [] => 0%Z
  end.

Definition scan_number (s : pystr) : option (json * pystr) :=
  match scan_int s with
  | None => None
  | Some (i, r) =>
      match scan_frac r with
      | Some (fr, r1) =>
          match scan_exp r1 with
          | Some (ex, r2) => Some (JFloat (i ++ fr ++ ex), r2)
          | None => Some (JFloat (i ++ fr), r1)
          end
      | None =>
          match scan_exp r with
          | Some (ex, r2) => Some (JFloat (i ++ ex), r2)
          | None => Some (JInt (int_of_lexeme i), r)
          end
      end
  end.

Definition hex_val (c : char) : option N :=
  if in_range 48 57 c then Some (c - 48)%N
  else if in_range 97 102 c then Some (c - 87)%N
  else if in_range 65 70 c then Some (c - 55)%N
  else None.

(** [_decode_uXXXX]: four hexadecimal digits. *)
Definition hex4 (a b c d : char) : option N :=
  match hex_val a, hex_val b, hex_val c, hex_val d with
  | Some x, Some y, Some z, Some w => Some (((x * 16 + y) * 16 + z) * 16 + w)%N
  | _, _, _, _ => None
  end.

(** The [BACKSLASH] table. *)
Definition unescape (c : char) : option char :=
  if (c =? 34)%N then Some 34%N          (* quote *)
  else if (c =? 92)%N then Some 92%N     (* backslash *)
  else if (c =? 47)%N then Some 47%N     (* slash *)
  else if (c =? 98)%N then Some 8%N      (* backspace *)
  else if (c =? 102)%N then Some 12%N    (* form feed *)
  else if (c =? 110)%N then Some 10%N    (* line feed *)
  else if (c =? 114)%N then Some 13%N    (* carriage return *)
  else if (c =? 116)%N then Some 9%N     (* tab *)
  else None.

(** The outcome of a scanner that recurses on a fuel argument: a value and
    the rest of the text, text that does not parse, or not enough fuel.
    [scan_fuel_enough] shows that the last never comes out of [loads]. *)
Inductive scan (A : Type) :=
| Scanned (a : A) (rest : pystr)
| NoParse
| OutOfFuel.
Arguments Scanned {A} a rest.
Arguments NoParse {A}.
Arguments OutOfFuel {A}.

Definition of_option {A} (x : option (A * pystr)) : scan A :=
  match x with
  | Some (a, r) => Scanned a r
  | None => NoParse
  end.

(** [scanstring] (strict mode), called after the opening quote; [acc] is
    the decoded text so far, reversed. *)
Fixpoint scanstring (fuel : nat) (s acc : pystr) : scan pystr :=
  match fuel with
  | O => OutOfFuel
  | S f =>
      match s with
      | [] => NoParse
      | c :: t =>
          if (c =? 34)%N then Scanned (rev acc) t
          else if (c =? 92)%N then
            match t with
            | [] => NoParse
            | e :: u =>
                if (e =? 117)%N then
                  match u with
                  | h1 :: h2 :: h3 :: h4 :: u1 =>
                      match hex4 h1 h2 h3 h4 with
                      | None => NoParse
                      | Some uni =>
                          if in_range 55296 56319 uni && startswith u1 (lit "\u")
                          then
                            match u1 with
                            | _ :: _ :: l1 :: l2 :: l3 :: l4 :: u2 =>
                                match hex4 l1 l2 l3 l4 with
                                | None => NoParse
                                | Some uni2 =>
                                    if in_range 56320 57343 uni2
                                    then scanstring f u2
                                           ((65536 + (uni - 55296) * 1024
                                             + (uni2 - 56320))%N :: acc)
                                    else scanstring f u1 (uni :: acc)
                                end
                            | _ => NoParse
                            end
                          else scanstring f u1 (uni :: acc)
                      end
                  | _ => NoParse
                  end
                else
                  match unescape e with
                  | Some ch => scanstring f u (ch :: acc)
                  | None => NoParse
                  end
            end
          else if (c <? 32)%N then NoParse
          else scanstring f t (c :: acc)
      end
  end.

Definition scan_string (s : pystr) : scan pystr :=
  scanstring (S (length s)) s [].

Definition scan_constant (s name : pystr) (v : json) : option (json * pystr) :=
  if startswith s name then Some (v, drop (length name) s) else None.

Definition or_else {A} (x : option A) (y : option A) : option A :=
  match x with Some _ => x | None => y end.

(** The scalar cases of [scan_once], in its order: the three constants, a
    number, then the three float constants. *)
Definition scan_scalar (s : pystr) : option (json * pystr) :=
  or_else (scan_constant s (lit "null") JNull)
  (or_else (scan_constant s (lit "true") (JBool true))
  (or_else (scan_constant s (lit "false") (JBool false))
  (or_else (scan_number s)
  (or_else (scan_constant s (lit "NaN") (JFloat (lit "NaN")))
  (or_else (scan_constant s (lit "Infinity") (JFloat (lit "Infinity")))
           (scan_constant s (lit "-Infinity") (JFloat (lit "-Infinity")))))))).

(** [scan_once], [JSONArray] and [JSONObject]. *)
Fixpoint scan_once (fuel : nat) (s : pystr) : scan json :=
  match fuel with
  | O => OutOfFuel
  | S f =>
      match s with
      | [] => NoParse
      | c :: t =>
          if (c =? 34)%N then
            match scan_string t with
            | Scanned str r => Scanned (JStr str) r
            | NoParse => NoParse
            | OutOfFuel => OutOfFuel
            end
          else if (c =? 123)%N then
            match skip_ws t with
            | d :: r =>
                if (d =? 125)%N then Scanned (JObj []) r
                else if (d =? 34)%N then object_items f r []
                else NoParse
            | [] => NoParse
            end
          else if (c =? 91)%N then
            match skip_ws t with
            | d :: r =>
                if (d =? 93)%N then Scanned (JArr []) r
                else array_items f (d :: r) []
            | [] => NoParse
            end
          else of_option (scan_scalar s)
      end
  end

with array_items (fuel : nat) (s : pystr) (acc : list json) : scan json :=
  match fuel with
  | O => OutOfFuel
  | S f =>
      match scan_once f s with
      | Scanned v r =>
          match skip_ws r with
          | c :: r' =>
              if (c =? 93)%N then Scanned (JArr (rev (v :: acc))) r'
              else if (c =? 44)%N then array_items f (skip_ws r') (v :: acc)
              else NoParse
          | [] => NoParse
          end
      | NoParse => NoParse
      | OutOfFuel => OutOfFuel
      end
  end

(** [s] starts just after the opening quote of a key; [acc] is the
    dictionary built so far ([dict(pairs)]: a repeated key keeps its first
    position and takes the last value). *)
with object_items (fuel : nat) (s : pystr) (acc : dict) : scan json :=
  match fuel with
  | O => OutOfFuel
  | S f =>
      match scan_string s with
      | Scanned key r =>
          match skip_ws r with
          | c :: r1 =>
              if (c =? 58)%N then
                match scan_once f (skip_ws r1) with
                | Scanned v r2 =>
                    match skip_ws r2 with
                    | d :: r3 =>
                        if (d =? 125)%N then Scanned (JObj (dict_set key v acc)) r3
                        else if (d =? 44)%N then
                          match skip_ws r3 with
                          | q :: r4 =>
                              if (q =? 34)%N
                              then object_items f r4 (dict_set key v acc)
                              else NoParse
                          | [] => NoParse
                          end
                        else NoParse
                    | [] => NoParse
                    end
                | NoParse => NoParse
                | OutOfFuel => OutOfFuel
                end
              else NoParse
          | [] => NoParse
          end
      | NoParse => NoParse
      | OutOfFuel => OutOfFuel
      end
  end.

Definition loads_fuel (s : pystr) : nat := 2 * length s + 4.

(** [json.loads(s)]: [None] stands for the [JSONDecodeError] raised on
    text that is not one JSON document.  The interpreter's resource limits
    (recursion depth, digits of an integer literal) are not modelled. *)
Definition loads (s : pystr) : option json :=
  if startswith s [65279%N] then None
  else
    match scan_once (loads_fuel s) (skip_ws s) with
    | Scanned v r =>
        match skip_ws r with
        | [] => Some v
        | _ :: _ => None
        end
    | NoParse => None
    | OutOfFuel => None
    end.

(** A scanner outcome that used up its fuel did not happen, and what is
    left after a value is shorter than [n]. *)
Definition consumes {A} (n : nat) (x : scan A) : Prop :=
  match x with
  | Scanned _ r => length r < n
  | NoParse => True
  | OutOfFuel => False
  end.

End JsonDecoder.

Definition json_loads := JsonDecoder.loads.

(** ** Exceptions and the effect monad *)

(** An instance of [Exception]: its class name and [str(e)].  Signals that
    are not instances of [Exception] ([KeyboardInterrupt], [SystemExit])
    are outside the model. *)
Record exn := mkExn { exn_class : pystr; exn_msg : pystr }.

Inductive result (A : Type) :=
| Ok (a : A)
| Raise (e : exn).
Arguments Ok {A} a.
Arguments Raise {A} e.

(** A computation over a state [S] that returns a value or raises.  The
    state reached when an exception is raised is kept: Python undoes
    nothing. *)
Definition M (S A : Type) : Type := S -> result A * S.

Definition ret {S A} (a : A) : M S A := fun s => (Ok a, s).

Definition bind {S A B} (m : M S A) (k : A -> M S B) : M S B :=
  fun s =>
    match m s with
    | (Ok a, s') => k a s'
    | (Raise e, s') => (Raise e, s')
    end.

Definition raise {S A} (e : exn) : M S A := fun s => (Raise e, s).

Definition lift {S A} (r : result A) : M S A := fun s => (r, s).

Definition get {S} : M S S := fun s => (Ok s, s).

Definition put {S} (s : S) : M S unit := fun _ => (Ok tt, s).

(** [try: body  except Exception as e: handler e] *)
Definition try_except {S A} (body : M S A) (handler : exn -> M S A) : M S A :=
  fun s =>
    match body s with
    | (Ok a, s') => (Ok a, s')
    | (Raise e, s') => handler e s'
    end.

#[export] Instance M_ret {S} : MRet (M S) := fun _ a => ret a.
#[export] Instance M_bind {S} : MBind (M S) := fun _ _ k m => bind m k.

(** ** Dynamic typing: the operations of the source that can raise *)

Definition type_error (msg : pystr) : exn := mkExn (lit "TypeError") msg.

(** [KeyError(k)]; [str] of it is [repr(k)], which for the keys of the
    source (letters and underscores) is [k] in single quotes. *)
Definition key_error (k : pystr) : exn :=
  mkExn (lit "KeyError") (lit "'" ++ k ++ lit "'").

(** [v[k]] for a [str] key [k]. *)
Definition subscript (v : json) (k : pystr) : result json :=
  match v with
  | JObj d =>
      match dict_get k d with
      | Some x => Ok x
      | None => Raise (key_error k)
      end
  | JStr _ => Raise (type_error (lit "string indices must be integers, not 'str'"))
  | JArr _ =>
      Raise (type_error (lit "list indices must be integers or slices, not str"))
  | _ => Raise (type_error (lit "'" ++ type_name v ++ lit "' object is not subscriptable"))
  end.

(** [v + l] where [l] is a [str] literal. *)
Definition concat_lit (v : json) (l : pystr) : result pystr :=
  match v with
  | JStr s => Ok (s ++ l)
  | JArr _ =>
      Raise (type_error (lit "can only concatenate list (not " ++ [34%N]
                         ++ lit "str" ++ [34%N] ++ lit ") to list"))
  | _ =>
      Raise (type_error (lit "unsupported operand type(s) for +: '"
                         ++ type_name v ++ lit "' and 'str'"))
  end.

(** [s + v] where [s] is a [str]. *)
Definition concat_val (s : pystr) (v : json) : result pystr :=
  match v with
  | JStr t => Ok (s ++ t)
  | _ =>
      Raise (type_error (lit "can only concatenate str (not " ++ [34%N]
                         ++ type_name v ++ [34%N] ++ lit ") to str"))
  end.

(** ** LLM gateway *)

(** The generation parameters of a call. *)
Record GenConfig := { temperature : Q; max_output_tokens : Z }.

(** What reading an attribute of an SDK object does: the attribute is
    missing, the property raises, or it has a value. *)
Inductive attr (A : Type) :=
| Missing
| Raising (e : exn)
| Present (a : A).
Arguments Missing {A}.
Arguments Raising {A} e.
Arguments Present {A} a.

(** A candidate of a response: the outcome of evaluating
    [.content[0].text] on it. *)
Record Candidate := { cand_text : result pystr }.

(** The response object of [generate_content], as far as [call_llm] looks
    at it: [response.text], [response.candidates] and [str(response)]. *)
Record Response := {
  resp_text : attr pystr;
  resp_candidates : attr (list Candidate);
  resp_str : pystr
}.

(** [genai.configure], [genai.GenerativeModel] and [generate_content]
    together either raise or return a response. *)
Inductive sdk_outcome :=
| SdkRaise (e : exn)
| SdkReturn (r : Response).

(** The environment of the program: the credential variable and the hosted
    model.  The model's answer may depend on how many calls were made
    before (the gateway state is that count), on the prompt and on the
    generation parameters. *)
Record World := {
  api_key : option pystr;     (* os.getenv("GOOGLE_API_KEY") *)
  sdk : nat -> pystr -> GenConfig -> sdk_outcome
}.

(** [not api_key] *)
Definition no_credential (w : World) : bool :=
  match api_key w with
  | None => true
  | Some k => negb (truthy k)
  end.

(** The body of the [try] block of [call_llm]. *)
Definition live_call (w : World) (prompt : pystr) (cfg : GenConfig) : M nat pystr :=
  n ← get;
  put (S n);;
  match sdk w n prompt cfg with
  | SdkRaise e => raise e
  | SdkReturn response =>
      match resp_text response with
      | Raising e => raise e
      | Present ((_ :: _) as t) => mret (strip t)
      | _ =>
          match resp_candidates response with
          | Raising e => raise e
          | Present (c :: _) => t ← lift (cand_text c); mret (strip t)
          | _ => mret (take 2000 (resp_str response))
          end
      end
  end.

Definition MOCK_MARKER : pystr := lit "[MOCK RESPONSE] ".
Definition ERROR_MARKER : pystr := lit "[ERROR] Gemini SDK call failed: ".

Definition call_llm (w : World) (prompt : pystr) (cfg : GenConfig) : M nat pystr :=
  if no_credential w
  then mret (MOCK_MARKER ++ take 150 prompt ++ lit "...")
  else try_except (live_call w prompt cfg)
         (fun e => mret (ERROR_MARKER ++ exn_msg e)).

(** ** Response interpreters *)

Definition FENCE : pystr := lit "```".
Definition FENCE_JSON : pystr := lit "```json".

(** Both fence markers are replaced by the empty string, the longer one
    first, and the result is stripped. *)
Definition clean_fences (out : pystr) : pystr :=
  strip (replace (replace out FENCE_JSON []) FENCE []).

(** The part of [categorize_email] after the gateway call. *)
Definition parse_category (out : pystr) : json :=
  match json_loads (clean_fences out) with
  | Some parsed => parsed
  | None => JObj [(lit "text", JStr out)]
  end.

Definition email_body (email : dict) : json :=
  dict_get_default (lit "body") (JStr []) email.

(** [prompt_template + label + email.get("body", <empty>)]: the left sum is
    evaluated first. *)
Definition prompt_for (prompt_template : json) (label : pystr) (email : dict)
  : result pystr :=
  match concat_lit prompt_template label with
  | Ok head => concat_val head (email_body email)
  | Raise e => Raise e
  end.

Definition EMAIL_LABEL_CAT : pystr := NL ++ NL ++ lit "Email:" ++ NL.
Definition EMAIL_LABEL : pystr := NL ++ NL ++ lit "EMAIL:" ++ NL.

Definition categorize_email (w : World) (email : dict) (prompt_template : json)
    (cfg : GenConfig) : M nat json :=
  prompt ← lift (prompt_for prompt_template EMAIL_LABEL_CAT email);
  out ← call_llm w prompt cfg;
  mret (parse_category out).

(** The bullet-list fallback of [extract_actions]. *)
Definition bullet_lines (out : pystr) : list pystr :=
  map (strip_chars (lit " -" ++ [BULLET; TAB]))
      (List.filter (fun l => truthy (strip l)) (splitlines out)).

(** The part of [extract_actions] after the gateway call. *)
Definition parse_actions (out : pystr) : json :=
  let fallback := JArr (map JStr (bullet_lines out)) in
  if startswith (strip out) (lit "[") then
    match json_loads out with
    | Some parsed => parsed
    | None => fallback
    end
  else fallback.

Definition extract_actions (w : World) (email : dict) (prompt_template : json)
    (cfg : GenConfig) : M nat json :=
  prompt ← lift (prompt_for prompt_template EMAIL_LABEL email);
  out ← call_llm w prompt cfg;
  mret (parse_actions out).

Definition draft_reply (w : World) (email : dict) (prompt_template : json)
    (cfg : GenConfig) (thread_context : option pystr) : M nat pystr :=
  prompt ← lift (prompt_for prompt_template EMAIL_LABEL email);
  let prompt :=
    match thread_context with
    | Some ((_ :: _) as ctx) => prompt ++ NL ++ NL ++ lit "THREAD CONTEXT:" ++ NL ++ ctx
    | _ => prompt
    end in
  out ← call_llm w prompt cfg;
  mret (strip out).

(** ** Thread context collector *)

Section Formatting.

(** [repr] of a [str] and of a [float] are the interpreter's; the rest of
    [str] and [repr] on decoded JSON is defined from them. *)
Variable repr_str : pystr -> pystr.
Variable repr_float : pystr -> pystr.

Definition str_of_int (z : Z) : pystr :=
  lit (NilZero.string_of_int (Z.to_int z)).

Fixpoint py_repr (v : json) : pystr :=
  match v with
  | JNull => lit "None"
  | JBool true => lit "True"
  | JBool false => lit "False"
  | JInt z => str_of_int z
  | JFloat l => repr_float l
  | JStr s => repr_str s
  | JArr xs => lit "[" ++ join (lit ", ") (map py_repr xs) ++ lit "]"
  | JObj d =>
      lit "{"
      ++ join (lit ", ")
           (map (fun kv => repr_str (fst kv) ++ lit ": " ++ py_repr (snd kv)) d)
      ++ lit "}"
  end.

(** [str(v)] *)
Definition py_str (v : json) : pystr :=
  match v with
  | JStr s => s
  | _ => py_repr v
  end.

(** A replacement field [{m.get(k)}] of an f-string. *)
Definition fmt_get (k : pystr) (m : dict) : pystr :=
  match dict_get k m with
  | Some v => py_str v
  | None => lit "None"
  end.

(** The block appended for a matching message. *)
Definition thread_block (m : dict) : pystr :=
  lit "FROM: " ++ fmt_get (lit "from") m ++ NL
  ++ lit "DATE: " ++ fmt_get (lit "date") m ++ NL
  ++ fmt_get (lit "body") m ++ NL
  ++ lit "---" ++ NL.

(** [m.get("thread_id") == thread_id] for a [str] [thread_id]. *)
Definition in_thread (thread_id : pystr) (m : dict) : bool :=
  match dict_get (lit "thread_id") m with
  | Some (JStr t) => streq t thread_id
  | _ => false
  end.

(** The [for] loop of [collect_thread_context]: [msgs] grows by
    [append]. *)
Fixpoint collect_loop (thread_id : pystr) (inbox : list dict) (msgs : list pystr)
  : list pystr :=
  match inbox with
  | [] => msgs
  | m :: rest =>
      if in_thread thread_id m
      then collect_loop thread_id rest (msgs ++ [thread_block m])
      else collect_loop thread_id rest msgs
  end.

Definition collect_thread_context (inbox : list dict) (thread_id : option pystr)
  : option pystr :=
  match thread_id with
  | None => None
  | Some [] => None
  | Some ((_ :: _) as tid) =>
      match collect_loop tid inbox [] with
      | [] => None
      | (_ :: _) as msgs => Some (join NL msgs)
      end
  end.

End Formatting.

(** ** Ingestion pipeline *)

Record PipeState := {
  st_inbox : list dict;
  st_results : list dict;
  st_calls : nat
}.

(** A gateway computation run inside the pipeline. *)
Definition with_calls {A} (m : M nat A) : M PipeState A :=
  fun st =>
    let '(r, n) := m (st_calls st) in
    (r, {| st_inbox := st_inbox st; st_results := st_results st; st_calls := n |}).

Definition index_error : exn :=
  mkExn (lit "IndexError") (lit "list index out of range").

(** [inbox[idx][key] = v] *)
Definition set_field (idx : nat) (key : pystr) (v : json) : M PipeState unit :=
  st ← get;
  match st_inbox st !! idx with
  | None => raise index_error
  | Some d =>
      put {| st_inbox := <[idx := dict_set key v d]> (st_inbox st);
             st_results := st_results st;
             st_calls := st_calls st |}
  end.

(** [results.append(record)] *)
Definition append_result (record : dict) : M PipeState unit :=
  st ← get;
  put {| st_inbox := st_inbox st;
         st_results := st_results st ++ [record];
         st_calls := st_calls st |}.

Definition K_CATEGORY : pystr := lit "category".
Definition K_ACTIONS : pystr := lit "action_items".
Definition K_INDEX : pystr := lit "email_idx".
Definition K_ERROR : pystr := lit "error".

Definition success_record (idx : nat) (category actions : json) : dict :=
  [(K_INDEX, JInt (Z.of_nat idx));
   (K_CATEGORY, category);
   (K_ACTIONS, actions)].

Definition error_record (idx : nat) (msg : pystr) : dict :=
  [(K_INDEX, JInt (Z.of_nat idx)); (K_ERROR, JStr msg)].

(** [prompts[key]["template"]] *)
Definition template_of (prompts : dict) (key : pystr) : result json :=
  match subscript (JObj prompts) key with
  | Ok entry => subscript entry (lit "template")
  | Raise e => Raise e
  end.

(** The two template lookups and the two interpreter calls that open the
    [try] block. *)
Definition interpret_email (w : World) (prompts : dict) (cfg : GenConfig)
    (email : dict) : M nat (json * json) :=
  cat_prompt ← lift (template_of prompts (lit "categorize"));
  act_prompt ← lift (template_of prompts (lit "extract_actions"));
  category ← categorize_email w email cat_prompt cfg;
  actions ← extract_actions w email act_prompt cfg;
  mret (category, actions).

(** The whole [try] block. *)
Definition try_block (w : World) (prompts : dict) (cfg : GenConfig)
    (idx : nat) (email : dict) : M PipeState unit :=
  ca ← with_calls (interpret_email w prompts cfg email);
  set_field idx K_CATEGORY (fst ca);;
  set_field idx K_ACTIONS (snd ca);;
  append_result (success_record idx (fst ca) (snd ca)).

(** One turn of the [for] loop. *)
Definition process_email (w : World) (prompts : dict) (cfg : GenConfig)
    (idx : nat) (email : dict) : M PipeState unit :=
  try_except (try_block w prompts cfg idx email)
    (fun e => append_result (error_record idx (exn_msg e))).

(** [for idx, email in enumerate(inbox)]: the iterator reads position
    [idx] of the list as it is now and stops at its end; [fuel] bounds the
    number of turns by the length of the list. *)
Fixpoint ingest_loop (w : World) (prompts : dict) (cfg : GenConfig)
    (fuel idx : nat) : M PipeState unit :=
  match fuel with
  | O => mret tt
  | S fuel' =>
      st ← get;
      match st_inbox st !! idx with
      | None => mret tt
      | Some email =>
          process_email w prompts cfg idx email;;
          ingest_loop w prompts cfg fuel' (S idx)
      end
  end.

Definition run_ingestion_pipeline (w : World) (inbox : list dict) (prompts : dict)
    (cfg : GenConfig) : M nat (list dict * list dict) :=
  fun calls =>
    let start := {| st_inbox := inbox; st_results := []; st_calls := calls |} in
    match ingest_loop w prompts cfg (length inbox) 0 start with
    | (Ok _, st) => (Ok (st_inbox st, st_results st), st_calls st)
    | (Raise e, st) => (Raise e, st_calls st)
    end.

(** What one turn of the loop does to the email at position [idx], started
    with [k] gateway calls made: it appends [record], leaves [email'] at
    position [idx] and ends with [k'] calls made. *)
Inductive turn_outcome (w : World) (prompts : dict) (cfg : GenConfig)
    (idx : nat) (email : dict) (k : nat) : dict -> dict -> nat -> Prop :=
| turn_success (category actions : json) (k' : nat) :
    interpret_email w prompts cfg email k = (Ok (category, actions), k') ->
    turn_outcome w prompts cfg idx email k
      (success_record idx category actions)
      (dict_set K_ACTIONS actions (dict_set K_CATEGORY category email)) k'
| turn_failure (e : exn) (k' : nat) :
    interpret_email w prompts cfg email k = (Raise e, k') ->
    turn_outcome w prompts cfg idx email k
      (error_record idx (exn_msg e)) email k'.

(** An email without the two fields the pipeline writes. *)
Definition other_fields (email : dict) : dict :=
  dict_without [K_CATEGORY; K_ACTIONS] email.

(** ** Concrete inputs used by the examples *)

Module Examples.

Definition DQ : pystr := [34%N].
Definition quoted (s : pystr) : pystr := DQ ++ s ++ DQ.

Definition cfg0 : GenConfig := {| temperature := 0.2%Q; max_output_tokens := 300 |}.
Definition cfg1 : GenConfig := {| temperature := 0.9%Q; max_output_tokens := 64 |}.

(** The code-fenced answer of the specification. *)
Definition json_text : pystr :=
  lit "{" ++ quoted (lit "labels") ++ lit ":[],"
  ++ quoted (lit "priority") ++ lit ":" ++ quoted (lit "low") ++ lit ","
  ++ quoted (lit "summary") ++ lit ":" ++ quoted (lit "x") ++ lit "}".

Definition fenced_output : pystr := lit "```json" ++ NL ++ json_text ++ NL ++ lit "```".

Definition labelled_object : json :=
  JObj [(lit "labels", JArr []);
        (lit "priority", JStr (lit "low"));
        (lit "summary", JStr (lit "x"))].

Definition array_output : pystr :=
  lit "[" ++ quoted (lit "a") ++ lit "," ++ quoted (lit "b") ++ lit "]".

Definition bullet_output : pystr := lit "- a" ++ NL ++ lit "- b" ++ NL.

Definition two_actions : json := JArr [JStr (lit "a"); JStr (lit "b")].

Definition boom : exn := mkExn (lit "RuntimeError") (lit "quota exceeded").

(** No credential: mock mode. *)
Definition mock_world : World :=
  {| api_key := None; sdk := fun _ _ _ => SdkRaise boom |}.

(** An empty credential is no credential either. *)
Definition empty_key_world : World :=
  {| api_key := Some []; sdk := fun _ _ _ => SdkRaise boom |}.

(** A live gateway whose model always fails. *)
Definition failing_world : World :=
  {| api_key := Some (lit "key"); sdk := fun _ _ _ => SdkRaise boom |}.

(** A live gateway whose response has the text [t]. *)
Definition text_world (t : pystr) : World :=
  {| api_key := Some (lit "key");
     sdk := fun _ _ _ =>
       SdkReturn {| resp_text := Present t;
                    resp_candidates := Missing;
                    resp_str := [] |} |}.

(** A live gateway whose response has neither text nor candidates and
    prints as [t]. *)
Definition dump_world (t : pystr) : World :=
  {| api_key := Some (lit "key");
     sdk := fun _ _ _ =>
       SdkReturn {| resp_text := Missing;
                    resp_candidates := Present [];
                    resp_str := t |} |}.

Definition alice : dict :=
  [(lit "from", JStr (lit "alice@company.com"));
   (lit "to", JStr (lit "you@company.com"));
   (lit "subject", JStr (lit "Request: Q2 marketing budget approval"));
   (lit "date", JStr (lit "2025-09-01"));
   (lit "body", JStr (lit "Hi," ++ NL ++ lit "Can you approve the Q2 marketing budget?"));
   (lit "archived", JBool false);
   (lit "thread_id", JStr (lit "t1"))].

(** An email whose body is [null]: building a prompt from it raises. *)
Definition broken : dict :=
  [(lit "from", JStr (lit "bob@startup.com"));
   (lit "subject", JStr (lit "Meeting"));
   (lit "date", JStr (lit "2025-10-20"));
   (lit "body", JNull);
   (lit "archived", JBool false)].

Definition carol : dict :=
  [(lit "from", JStr (lit "carol@vendor.com"));
   (lit "date", JStr (lit "2025-10-15"));
   (lit "body", JStr (lit "Invoice INV-2025-017 is overdue."));
   (lit "category", JObj [(lit "text", JStr (lit "stale"))]);
   (lit "action_items", JArr [JStr (lit "old item")]);
   (lit "thread_id", JStr (lit "t1"))].

Definition inbox3 : list dict := [alice; broken; carol].

(** Two prompts that agree on their first 150 characters only. *)
Definition long_prompt_a : pystr := repeat 97%N 150 ++ lit "first tail".
Definition long_prompt_b : pystr := repeat 97%N 150 ++ lit "another, longer tail".

Definition prompts_ok : dict :=
  [(lit "categorize",
    JObj [(lit "name", JStr (lit "Categorize Email"));
          (lit "template", JStr (lit "Categorize this email and respond ONLY in JSON."))]);
   (lit "extract_actions",
    JObj [(lit "name", JStr (lit "Extract Action Items"));
          (lit "template", JStr (lit "Extract action items from this email."))])].

(** The extract-actions template is not a string: categorization succeeds,
    extraction raises. *)
Definition prompts_bad_actions : dict :=
  [(lit "categorize", JObj [(lit "template", JStr (lit "Categorize."))]);
   (lit "extract_actions", JObj [(lit "template", JInt 7)])].

End Examples.

(** ** Further definitions *)

(** The characters [extract_actions] strips from both ends of a line. *)
Definition BULLET_CHARS : pystr := lit " -" ++ [BULLET; TAB].

Definition bullet_char (c : char) : bool := existsb (N.eqb c) BULLET_CHARS.

(** A text that neither starts nor ends with a character for which [f]
    holds. *)
Definition trimmed (f : char -> bool) (s : pystr) : Prop :=
  (forall c r, s = c :: r -> f c = false)
  /\ (forall c r, s = r ++ [c] -> f c = false).

(** The inputs for which the [try] block of the pipeline cannot raise:
    both templates are there and are strings, and the body of the email is
    a string (or absent, which reads as the empty string). *)
Definition processable (prompts : dict) (email : dict) : Prop :=
  exists tc ta body,
    template_of prompts (lit "categorize") = Ok (JStr tc)
    /\ template_of prompts (lit "extract_actions") = Ok (JStr ta)
    /\ email_body email = JStr body.

(** ** Persistence: [save_json] and [load_json] *)

Module JsonEncoder.

Definition hex_digit (n : N) : char :=
  if (n <? 10)%N then (48 + n)%N else (87 + n)%N.

(** [ESCAPE_DCT] of [json.encoder], used when [ensure_ascii] is false: the
    quote, the backslash and the control characters are escaped, every
    other character is written as it is. *)
Definition encode_char (c : char) : pystr :=
  if (c =? 34)%N then [92; 34]%N
  else if (c =? 92)%N then [92; 92]%N
  else if (c =? 10)%N then [92; 110]%N
  else if (c =? 13)%N then [92; 114]%N
  else if (c =? 9)%N then [92; 116]%N
  else if (c =? 8)%N then [92; 98]%N
  else if (c =? 12)%N then [92; 102]%N
  else if (c <? 32)%N
       then [92; 117; 48; 48; hex_digit (c / 16); hex_digit (c mod 16)]%N
       else [c].

Definition encode_string (s : pystr) : pystr :=
  [34%N] ++ flat_map encode_char s ++ [34%N].

(** A line feed and the indentation of a nesting level ([indent=2]). *)
Definition newline_indent (level : nat) : pystr := NL ++ repeat 32%N (2 * level).

Section Dump.

(** [float.__repr__] of the value of a float literal. *)
Variable float_repr : pystr -> pystr.

(** [json.dumps(v, indent=2, ensure_ascii=False)] at a nesting level: items
    are separated by a comma and a new line, keys and values by a colon
    and a space, and empty containers are written closed.  As for
    [loads], the interpreter's resource limits (recursion depth, digits of
    an integer) are not modelled. *)
Fixpoint dump (level : nat) (v : json) : pystr :=
  match v with
  | JNull => lit "null"
  | JBool true => lit "true"
  | JBool false => lit "false"
  | JInt z => str_of_int z
  | JFloat l => float_repr l
  | JStr s => encode_string s
  | JArr [] => lit "[]"
  | JArr xs =>
      lit "[" ++ newline_indent (S level)
      ++ join (lit "," ++ newline_indent (S level)) (map (dump (S level)) xs)
      ++ newline_indent level ++ lit "]"
  | JObj [] => lit "{}"
  | JObj d =>
      lit "{" ++ newline_indent (S level)
      ++ join (lit "," ++ newline_indent (S level))
           (map (fun kv =>
                   encode_string (fst kv) ++ lit ": " ++ dump (S level) (snd kv)) d)
      ++ newline_indent level ++ lit "}"
  end.

End Dump.

End JsonEncoder.

(** The text files of the working directory: the decoded content of each
    file that exists.  Directories, and files that cannot be opened or do
    not hold UTF-8 text, are outside the model. *)
Definition FileSystem := pystr -> option pystr.

Definition write_file (path text : pystr) (fs : FileSystem) : FileSystem :=
  fun p => if streq p path then Some text else fs p.

(** Whether a text can be written with [encoding="utf-8"]: no surrogate
    code point, nothing above U+10FFFF. *)
Definition utf8_encodable (text : pystr) : bool :=
  forallb (fun c => negb (in_range 55296 57343 c) && (c <=? 1114111)%N) text.

(** What a file opened for reading in text mode returns: a carriage
    return, alone or before a line feed, reads as a line feed. *)
Fixpoint universal_newlines (s : pystr) : pystr :=
  match s with
  | [] => []
  | c :: s' =>
      if (c =? 13)%N then
        10%N ::
        match s' with
        | d :: s'' =>
            if (d =? 10)%N then universal_newlines s'' else universal_newlines s'
        | [] => []
        end
      else c :: universal_newlines s'
  end.

Section Persistence.

Variable float_repr : pystr -> pystr.

(** What reached the file when a character of the dump could not be
    encoded, the [UnicodeEncodeError] raised then, and the exception
    [json.load] raises on a text that is not JSON: all three are the
    interpreter's. *)
Variable partial_text : json -> pystr.
Variable encode_error : json -> exn.
Variable decode_error : pystr -> exn.

Definition json_dumps (v : json) : pystr := JsonEncoder.dump float_repr 0 v.

(** [save_json(path, obj)]: the file is opened for writing (and so
    replaced) and the dump of [obj] is written to it. *)
Definition save_json (path : pystr) (obj : json) : M FileSystem unit :=
  fun fs =>
    if utf8_encodable (json_dumps obj)
    then (Ok tt, write_file path (json_dumps obj) fs)
    else (Raise (encode_error obj), write_file path (partial_text obj) fs).

(** [load_json(path)]: the empty mapping when there is no such file, and
    otherwise what the text of the file decodes to. *)
Definition load_json (path : pystr) : M FileSystem json :=
  fun fs =>
    match fs path with
    | None => (Ok (JObj []), fs)
    | Some content =>
        match json_loads (universal_newlines content) with
        | Some v => (Ok v, fs)
        | None => (Raise (decode_error content), fs)
        end
    end.

End Persistence.

(** No float anywhere in a value. *)
Fixpoint float_free (v : json) : bool :=
  match v with
  | JFloat _ => false
  | JArr xs => forallb float_free xs
  | JObj d => forallb (fun kv => float_free (snd kv)) d
  | _ => true
  end.

Fixpoint distinct (ks : list pystr) : bool :=
  match ks with
  | [] => true
  | k :: ks' => negb (existsb (streq k) ks') && distinct ks'
  end.

(** Every mapping inside a value has one entry per key, as a Python
    [dict] has. *)
Fixpoint keys_distinct (v : json) : bool :=
  match v with
  | JArr xs => forallb keys_distinct xs
  | JObj d => distinct (map fst d) && forallb (fun kv => keys_distinct (snd kv)) d
  | _ => true
  end.

(** The characters of the strings and keys of a value. *)
Fixpoint json_chars (v : json) : pystr :=
  match v with
  | JStr s => s
  | JArr xs => flat_map json_chars xs
  | JObj d => flat_map (fun kv => fst kv ++ json_chars (snd kv)) d
  | _ => []
  end.

(** ** Notions used in the proofs about the decoder and the encoder *)

(** The characters a JSON value can start with. *)
Definition value_start (c : char) : bool :=
  ((c =? 34) || (c =? 123) || (c =? 91) || (c =? 110) || (c =? 116)
   || (c =? 102) || (c =? 45) || (c =? 78) || (c =? 73))%N || JsonDecoder.is_digit c.

(** The digits of a decimal number of the standard library, which
    [str_of_int] is written with. *)
Definition uint_chars (d : Decimal.uint) : pystr :=
  lit (NilEmpty.string_of_uint d).

Definition digit_step (acc : Z) (c : char) : Z :=
  (10 * acc + JsonDecoder.digit_val c)%Z.

(** Where a number stops: at the end of the text or before a character
    that continues no number. *)
Definition number_end (rest : pystr) : bool :=
  match rest with
  | [] => true
  | c :: _ =>
      negb (JsonDecoder.is_digit c) && negb (c =? 46)%N
      && negb ((c =? 101) || (c =? 69))%N
  end.

(** What the text of an integer starts with: a digit or the minus sign. *)
Definition int_start (c : char) : bool := JsonDecoder.is_digit c || (c =? 45)%N.

Section DumpText.

Variable float_repr : pystr -> pystr.

(** The text of the items of a mapping after the opening quote of the
    first key, followed by [R]. *)
Definition dump_items_tail (l : nat) (k : pystr) (v : json) (d : dict) (R : pystr)
    : pystr :=
  flat_map JsonEncoder.encode_char k ++ 34%N :: 58%N :: 32%N
  :: JsonEncoder.dump float_repr (S l) v
  ++ match d with
     | [] => R
     | _ :: _ =>
         (lit "," ++ JsonEncoder.newline_indent (S l))
         ++ join (lit "," ++ JsonEncoder.newline_indent (S l))
              (map (fun kv : pystr * json =>
                      JsonEncoder.encode_string (fst kv) ++ lit ": "
                      ++ JsonEncoder.dump float_repr (S l) (snd kv)) d)
         ++ R
     end.

(** A value is read back from its dump, whatever follows it, as long as
    a number is not followed by something that continues it. *)
Definition dump_reads_back (v : json) : Prop :=
  float_free v = true -> keys_distinct v = true ->
  forall (l : nat) (rest : pystr),
    number_end rest = true ->
    exists f,
      JsonDecoder.scan_once f (JsonEncoder.dump float_repr l v ++ rest)
      = JsonDecoder.Scanned v rest.

End DumpText.

(** ** The shipped data and the start-up of the application *)

Definition QUOTE : pystr := [34%N].

(** [DEFAULT_PROMPTS] *)
Definition DEFAULT_PROMPTS : json :=
  JObj
    [(lit "categorize",
      JObj [(lit "name", JStr (lit "Categorize Email"));
            (lit "template",
             JStr (lit "Categorize this email and respond ONLY in JSON." ++ NL
                   ++ lit "{" ++ NL
                   ++ lit "  " ++ QUOTE ++ lit "labels" ++ QUOTE ++ lit ": ["
                   ++ QUOTE ++ lit "..." ++ QUOTE ++ lit "]," ++ NL
                   ++ lit "  " ++ QUOTE ++ lit "priority" ++ QUOTE ++ lit ": "
                   ++ QUOTE ++ lit "low/medium/high" ++ QUOTE ++ lit "," ++ NL
                   ++ lit "  " ++ QUOTE ++ lit "summary" ++ QUOTE ++ lit ": "
                   ++ QUOTE ++ lit "short summary" ++ QUOTE ++ NL
                   ++ lit "}"))]);
     (lit "extract_actions",
      JObj [(lit "name", JStr (lit "Extract Action Items"));
            (lit "template",
             JStr (lit "Extract action items from this email. Respond in JSON array."
                   ++ NL
                   ++ lit "[ " ++ QUOTE ++ lit "task 1" ++ QUOTE ++ lit ", "
                   ++ QUOTE ++ lit "task 2" ++ QUOTE ++ lit ", ... ]"))]);
     (lit "draft_reply",
      JObj [(lit "name", JStr (lit "Draft Reply"));
            (lit "template",
             JStr (lit "Draft a polite, concise reply." ++ NL
                   ++ lit "Address the sender, mention key points, and propose next steps."
                   ++ NL
                   ++ lit "Keep it under 180 words."))]);
     (lit "chat",
      JObj [(lit "name", JStr (lit "Chat about email"));
            (lit "template",
             JStr (lit "You are an assistant that answers user questions based strictly on the email content. Be concise."))])].

(** [get_sample_inbox()] *)
Definition get_sample_inbox : json :=
  JArr
    [JObj [(lit "from", JStr (lit "alice@company.com"));
           (lit "to", JStr (lit "you@company.com"));
           (lit "subject", JStr (lit "Request: Q2 marketing budget approval"));
           (lit "date", JStr (lit "2025-09-01"));
           (lit "body",
            JStr (lit "Hi," ++ NL ++ NL
                  ++ lit "Can you approve the Q2 marketing budget? We need a decision by Friday. Attached are the numbers."
                  ++ NL ++ NL ++ lit "Thanks," ++ NL ++ lit "Alice"));
           (lit "archived", JBool false)];
     JObj [(lit "from", JStr (lit "bob@startup.com"));
           (lit "to", JStr (lit "you@company.com"));
           (lit "subject", JStr (lit "Meeting: Product sync (tomorrow)"));
           (lit "date", JStr (lit "2025-10-20"));
           (lit "body",
            JStr (lit "Hello," ++ NL ++ NL
                  ++ lit "Can we meet tomorrow at 10am to sync on the product roadmap? Please confirm or propose another time."
                  ++ NL ++ NL ++ lit "Regards," ++ NL ++ lit "Bob"));
           (lit "archived", JBool false)];
     JObj [(lit "from", JStr (lit "carol@vendor.com"));
           (lit "to", JStr (lit "you@company.com"));
           (lit "subject", JStr (lit "Invoice INV-2025-017 (overdue)"));
           (lit "date", JStr (lit "2025-10-15"));
           (lit "body",
            JStr (lit "Dear team," ++ NL ++ NL
                  ++ lit "Invoice INV-2025-017 is overdue by 10 days. Please arrange payment or contact us."
                  ++ NL ++ NL ++ lit "Best," ++ NL ++ lit "Carol"));
           (lit "archived", JBool false)];
     JObj [(lit "from", JStr (lit "dave@partner.org"));
           (lit "to", JStr (lit "you@company.com"));
           (lit "subject", JStr (lit "Collaboration opportunity - quick chat?"));
           (lit "date", JStr (lit "2025-10-01"));
           (lit "body",
            JStr (lit "Hi," ++ NL ++ NL
                  ++ lit "We have a potential collaboration. Interested in a 20-min call next week?"
                  ++ NL ++ NL ++ lit "Thanks," ++ NL ++ lit "Dave"));
           (lit "archived", JBool false)]].

(** What [app.py] seeds [saved_results.json] with. *)
Definition EMPTY_RESULTS : json :=
  JObj [(lit "drafts", JArr []); (lit "analyses", JArr [])].

Definition PROMPTS_FILE : pystr := lit "prompts.json".
Definition INBOX_FILE : pystr := lit "inbox.json".
Definition RESULTS_FILE : pystr := lit "saved_results.json".

Section Startup.

Variable float_repr : pystr -> pystr.
Variable partial_text : json -> pystr.
Variable encode_error : json -> exn.
Variable decode_error : pystr -> exn.

(** [os.path.exists(path)] *)
Definition path_exists (path : pystr) : M FileSystem bool :=
  fun fs => (Ok (match fs path with Some _ => true | None => false end), fs).

(** [if not os.path.exists(path): save_json(path, default)] *)
Definition seed (path : pystr) (default : json) : M FileSystem unit :=
  there ← path_exists path;
  if negb there
  then save_json float_repr partial_text encode_error path default
  else mret tt.

(** The start of [app.py]: the three data files are seeded, then
    loaded into [prompts], [inbox] and [results]. *)
Definition load_or_initialize : M FileSystem (json * json * json) :=
  seed PROMPTS_FILE DEFAULT_PROMPTS;;
  seed INBOX_FILE get_sample_inbox;;
  seed RESULTS_FILE EMPTY_RESULTS;;
  prompts ← load_json decode_error PROMPTS_FILE;
  inbox ← load_json decode_error INBOX_FILE;
  results ← load_json decode_error RESULTS_FILE;
  mret (prompts, inbox, results).

End Startup.

(** The file system after [seed path default]. *)
Definition seeded (float_repr : pystr -> pystr) (path : pystr) (default : json)
    (fs : FileSystem) : FileSystem :=
  match fs path with
  | Some _ => fs
  | None => write_file path (json_dumps float_repr default) fs
  end.

(** What a data file stands for at start-up: what its text decodes to
    when it exists, and the default otherwise. *)
Definition stored (fs : FileSystem) (path : pystr) (default : json) : option json :=
  match fs path with
  | Some content => json_loads (universal_newlines content)
  | None => Some default
  end.

(** ** The ingestion button of [app.py] *)

(** What the handler of the button works on: the gateway's call counter,
    the files, and the number of times the clock has been read. *)
Record AppState := {
  app_calls : nat;
  app_files : FileSystem;
  app_ticks : nat
}.

Definition on_gateway {A} (m : M nat A) : M AppState A :=
  fun st =>
    let '(r, n) := m (app_calls st) in
    (r, {| app_calls := n; app_files := app_files st; app_ticks := app_ticks st |}).

Definition on_files {A} (m : M FileSystem A) : M AppState A :=
  fun st =>
    let '(r, fs) := m (app_files st) in
    (r, {| app_calls := app_calls st; app_files := fs; app_ticks := app_ticks st |}).

(** Reading an attribute that the type of [v] does not have. *)
Definition attribute_error (v : json) (name : pystr) : exn :=
  mkExn (lit "AttributeError")
    (lit "'" ++ type_name v ++ lit "' object has no attribute '" ++ name ++ lit "'").

(** [results["analyses"].append]: the subscript, then the look-up of the
    method, which only a list has. *)
Definition analyses_of (results : json) : result (list json) :=
  match subscript results (lit "analyses") with
  | Ok (JArr xs) => Ok xs
  | Ok v => Raise (attribute_error v (lit "append"))
  | Raise e => Raise e
  end.

(** [results] once the list under ["analyses"] holds [xs]: the list is
    changed in place, the mapping keeps its keys. *)
Definition with_analyses (results : json) (xs : list json) : json :=
  match results with
  | JObj d => JObj (dict_set (lit "analyses") (JArr xs) d)
  | _ => results
  end.

(** The entry appended for one record of the run. *)
Definition ingest_analysis (time : pystr) (r : dict) : json :=
  JObj [(lit "time", JStr time);
        (lit "type", JStr (lit "ingest_batch"));
        (lit "result", JObj r)].

(** [temperature=0.2, max_output_tokens=300] *)
Definition BUTTON_CONFIG : GenConfig :=
  {| temperature := 0.2%Q; max_output_tokens := 300 |}.

Section IngestButton.

Variable w : World.
Variable float_repr : pystr -> pystr.
Variable partial_text : json -> pystr.
Variable encode_error : json -> exn.

(** [str(datetime.utcnow())] at each reading of the clock. *)
Variable utcnow : nat -> pystr.

Definition now : M AppState pystr :=
  fun st =>
    (Ok (utcnow (app_ticks st)),
     {| app_calls := app_calls st;
        app_files := app_files st;
        app_ticks := S (app_ticks st) |}).

(** [for r in ingestion_results: results["analyses"].append({...})]: in
    each turn the list and its method are looked up first, then the clock
    is read for the new entry. *)
Fixpoint append_analyses (rs : list dict) (results : json) : M AppState json :=
  match rs with
  | [] => mret results
  | r :: rs' =>
      xs ← lift (analyses_of results);
      time ← now;
      append_analyses rs' (with_analyses results (xs ++ [ingest_analysis time r]))
  end.

(** The body of the handler, for an inbox that is a list of mappings and
    prompts that are a mapping; the calls that only draw the page are
    left out.  It returns the new values of [inbox] and [results]. *)
Definition ingest_button (inbox : list dict) (prompts : dict) (results : json)
    : M AppState (list dict * json) :=
  run ← on_gateway (run_ingestion_pipeline w inbox prompts BUTTON_CONFIG);
  on_files (save_json float_repr partial_text encode_error INBOX_FILE
              (JArr (map JObj (fst run))));;
  results' ← append_analyses (snd run) results;
  on_files (save_json float_repr partial_text encode_error RESULTS_FILE results');;
  mret (fst run, results').

End IngestButton.

(** * Properties *)

Ltac munfold :=
  unfold mbind, M_bind, mret, M_ret, bind, ret, lift, raise, get, put,
    try_except in *.

(** ** Strings and dictionaries *)

Lemma streq_spec (a b : pystr) : streq a b = true <-> a = b.
Proof.
  revert b. induction a as [|x a IH]; intros [|y b]; simpl; split;
    try congruence; try reflexivity.
  - rewrite andb_true_iff, N.eqb_eq, IH. intros [-> ->]. reflexivity.
  - intros [= -> ->]. rewrite N.eqb_refl. simpl. apply IH. reflexivity.
Qed.

Lemma streq_refl (a : pystr) : streq a a = true.
Proof. apply streq_spec. reflexivity. Qed.

Lemma streq_neq (a b : pystr) : a <> b -> streq a b = false.
Proof.
  intros Hne. destruct (streq a b) eqn:E; [|reflexivity].
  apply streq_spec in E. contradiction.
Qed.

Lemma dict_get_set_eq (k : pystr) (v : json) (d : dict) :
  dict_get k (dict_set k v d) = Some v.
Proof.
  induction d as [|[k' v'] d IH]; simpl.
  - rewrite streq_refl. reflexivity.
  - destruct (streq k k') eqn:E; simpl; rewrite E; [reflexivity | exact IH].
Qed.


(** Writing the value a key already has changes nothing. *)
Lemma dict_set_same (k : pystr) (v : json) (d : dict) :
  dict_get k d = Some v -> dict_set k v d = d.
Proof.
  induction d as [|[k' v'] d IH]; simpl; [discriminate|].
  destruct (streq k k') eqn:E.
  - intros [= ->]. reflexivity.
  - intros H. rewrite (IH H). reflexivity.
Qed.

Lemma dict_without_set (ks : list pystr) (k : pystr) (v : json) (d : dict) :
  existsb (streq k) ks = true ->
  dict_without ks (dict_set k v d) = dict_without ks d.
Proof.
  intros Hk. unfold dict_without.
  induction d as [|[k' v'] d IH]; simpl.
  - rewrite Hk. reflexivity.
  - destruct (streq k k') eqn:E; simpl.
    + apply streq_spec in E. subst k'. rewrite Hk. reflexivity.
    + rewrite IH. reflexivity.
Qed.

Lemma dict_get_without (ks : list pystr) (k : pystr) (d : dict) :
  existsb (streq k) ks = false ->
  dict_get k (dict_without ks d) = dict_get k d.
Proof.
  intros Hk. unfold dict_without.
  induction d as [|[k' v'] d IH]; simpl; [reflexivity|].
  destruct (streq k k') eqn:E.
  - apply streq_spec in E. subst k'. rewrite Hk. simpl.
    rewrite streq_refl. reflexivity.
  - destruct (negb (existsb (streq k') ks)); simpl; [rewrite E|]; exact IH.
Qed.

(** ** The JSON decoder never runs out of fuel *)

Module JsonDecoderFacts.
Import JsonDecoder.

Lemma consumes_weaken {A} (n m : nat) (x : scan A) :
  consumes n x -> n <= m -> consumes m x.
Proof. destruct x; simpl; [lia|trivial|trivial]. Qed.

Lemma lstrip_by_length (f : char -> bool) (s : pystr) :
  length (lstrip_by f s) <= length s.
Proof.
  induction s as [|c s IH]; simpl; [lia|].
  destruct (f c); simpl; lia.
Qed.

Lemma skip_ws_length (s : pystr) : length (skip_ws s) <= length s.
Proof. apply lstrip_by_length. Qed.

Lemma skip_ws_cons (s : pystr) (c : char) (r : pystr) :
  skip_ws s = c :: r -> length r < length s.
Proof.
  intros H. pose proof (skip_ws_length s) as Hl. rewrite H in Hl.
  simpl in Hl. lia.
Qed.

Lemma span_digits_length (s ds r : pystr) :
  span_digits s = (ds, r) -> length s = length ds + length r.
Proof.
  revert ds r. induction s as [|c s IH]; simpl; intros ds r.
  - intros [= <- <-]. reflexivity.
  - destruct (is_digit c).
    + destruct (span_digits s) as [ds' r'] eqn:E. intros [= <- <-].
      simpl. rewrite (IH ds' r' eq_refl). reflexivity.
    + intros [= <- <-]. reflexivity.
Qed.

Lemma scan_int_length (s i r : pystr) :
  scan_int s = Some (i, r) -> length r < length s.
Proof.
  unfold scan_int.
  assert (forall sign s1 : pystr, length s1 <= length s ->
            match s1 with
            | [] => None
            | c :: t =>
                if (c =? 48)%N then Some (sign ++ [c], t)
                else if is_digit c
                     then let '(ds, r) := span_digits s1 in Some (sign ++ ds, r)
                     else None
            end = Some (i, r) -> length r < length s) as Haux.
  { intros sign [|c t] Hle; [discriminate|]. simpl in Hle.
    destruct (c =? 48)%N; [intros [= _ <-]; lia|].
    destruct (is_digit c) eqn:Hd; [|discriminate].
    destruct (span_digits (c :: t)) as [ds r'] eqn:E. intros [= _ <-].
    pose proof (span_digits_length _ _ _ E) as Hl.
    simpl in E. rewrite Hd in E. destruct (span_digits t). injection E as <- <-.
    simpl in Hl. lia. }
  destruct s as [|c t]; [discriminate|].
  destruct (c =? 45)%N.
  - apply (Haux [c] t). simpl. lia.
  - intros H. apply (Haux [] (c :: t)); [lia | exact H].
Qed.

Lemma scan_frac_length (s f r : pystr) :
  scan_frac s = Some (f, r) -> length r < length s.
Proof.
  unfold scan_frac. destruct s as [|c t]; [discriminate|].
  destruct (c =? 46)%N; [|discriminate].
  destruct (span_digits t) as [[|d ds] r'] eqn:E; [discriminate|].
  intros [= _ <-]. apply span_digits_length in E. simpl in *. lia.
Qed.

Lemma scan_exp_length (s e r : pystr) :
  scan_exp s = Some (e, r) -> length r < length s.
Proof.
  unfold scan_exp. destruct s as [|c t]; [discriminate|].
  destruct ((c =? 101) || (c =? 69))%N; [|discriminate].
  assert (forall sign t1 : pystr, length t1 <= length t ->
            match span_digits t1 with
            | ([], _) => None
            | (ds, r0) => Some (c :: sign ++ ds, r0)
            end = Some (e, r) -> length r < length (c :: t)) as Haux.
  { intros sign t1 Hle. destruct (span_digits t1) as [[|d ds] r'] eqn:E;
      [discriminate|].
    intros [= _ <-]. apply span_digits_length in E. simpl in *. lia. }
  destruct t as [|d u].
  - apply (Haux [] []). lia.
  - destruct ((d =? 43) || (d =? 45))%N.
    + apply (Haux [d] u). simpl. lia.
    + apply (Haux [] (d :: u)). lia.
Qed.

Lemma scan_number_length (s : pystr) (v : json) (r : pystr) :
  scan_number s = Some (v, r) -> length r < length s.
Proof.
  unfold scan_number.
  destruct (scan_int s) as [[i r0]|] eqn:Ei; [|discriminate].
  apply scan_int_length in Ei.
  destruct (scan_frac r0) as [[fr r1]|] eqn:Ef.
  - apply scan_frac_length in Ef.
    destruct (scan_exp r1) as [[ex r2]|] eqn:Ee.
    + apply scan_exp_length in Ee. intros [= _ <-]. lia.
    + intros [= _ <-]. lia.
  - destruct (scan_exp r0) as [[ex r2]|] eqn:Ee.
    + apply scan_exp_length in Ee. intros [= _ <-]. lia.
    + intros [= _ <-]. lia.
Qed.

Lemma scan_constant_length (s name : pystr) (v v' : json) (r : pystr) :
  0 < length name ->
  scan_constant s name v = Some (v', r) -> length r < length s.
Proof.
  intros Hn. unfold scan_constant.
  destruct (startswith s name) eqn:E; [|discriminate].
  intros [= _ <-]. rewrite length_drop.
  destruct s as [|c s]; [|simpl; lia].
  destruct name; [simpl in Hn; lia | discriminate E].
Qed.

Lemma scan_scalar_length (s : pystr) (v : json) (r : pystr) :
  scan_scalar s = Some (v, r) -> length r < length s.
Proof.
  unfold scan_scalar, or_else.
  repeat match goal with
         | |- context [match scan_constant s ?n ?x with _ => _ end] =>
             let E := fresh "E" in
             destruct (scan_constant s n x) as [[? ?]|] eqn:E;
             [apply scan_constant_length in E; [|vm_compute; lia];
              intros [= _ <-]; exact E|]
         | |- context [match scan_number s with _ => _ end] =>
             let E := fresh "E" in
             destruct (scan_number s) as [[? ?]|] eqn:E;
             [apply scan_number_length in E; intros [= _ <-]; exact E|]
         end.
  intros Hlast.
  apply scan_constant_length in Hlast; [exact Hlast | vm_compute; lia].
Qed.

Lemma scanstring_consumes (fuel : nat) :
  forall s acc, length s < fuel -> consumes (length s) (scanstring fuel s acc).
Proof.
  induction fuel as [|fuel IH]; intros s acc Hf; [lia|].
  assert (forall t acc' : pystr, length t < length s ->
            consumes (length s) (scanstring fuel t acc')) as Hrec.
  { intros t acc' Ht. apply (consumes_weaken (length t)); [apply IH; lia | lia]. }
  cbn [scanstring].
  destruct s as [|c t]; [exact I|].
  destruct (c =? 34)%N; [simpl; lia|].
  destruct (c =? 92)%N.
  - destruct t as [|e u]; [exact I|].
    destruct (e =? 117)%N.
    + destruct u as [|h1 [|h2 [|h3 [|h4 u1]]]]; try exact I.
      destruct (hex4 h1 h2 h3 h4) as [uni|]; [|exact I].
      destruct (in_range 55296 56319 uni && startswith u1 (lit "\u")).
      * destruct u1 as [|x1 [|x2 [|l1 [|l2 [|l3 [|l4 u2]]]]]]; try exact I.
        destruct (hex4 l1 l2 l3 l4) as [uni2|]; [|exact I].
        destruct (in_range 56320 57343 uni2); apply Hrec; simpl; lia.
      * apply Hrec. simpl. lia.
    + destruct (unescape e); [|exact I]. apply Hrec. simpl. lia.
  - destruct (c <? 32)%N; [exact I|]. apply Hrec. simpl. lia.
Qed.

Lemma scan_string_consumes (s : pystr) : consumes (length s) (scan_string s).
Proof. apply scanstring_consumes. lia. Qed.

(** With fuel above twice the length of the text, the three mutually
    recursive scanners end before the fuel does, and a value leaves a
    shorter text. *)
Lemma scan_fuel_enough (fuel : nat) :
  (forall s, 2 * length s + 1 <= fuel -> consumes (length s) (scan_once fuel s))
  /\ (forall s acc,
        2 * length s + 2 <= fuel -> consumes (length s) (array_items fuel s acc))
  /\ (forall s acc,
        2 * length s + 2 <= fuel -> consumes (length s) (object_items fuel s acc)).
Proof.
  induction fuel as [|fuel (IHo & IHa & IHobj)].
  - repeat split; intros; lia.
  - split; [|split].
    + intros s Hf. cbn [scan_once].
      destruct s as [|c t]; [exact I|]. cbn [length] in *.
      destruct (c =? 34)%N.
      { pose proof (scan_string_consumes t) as Hs.
        destruct (scan_string t); simpl in *; [lia|exact I|exact Hs]. }
      destruct (c =? 123)%N.
      { destruct (skip_ws t) as [|d r] eqn:Ews; [exact I|].
        apply skip_ws_cons in Ews.
        destruct (d =? 125)%N; [simpl; lia|].
        destruct (d =? 34)%N; [|exact I].
        apply (consumes_weaken (length r)); [apply IHobj; lia | lia]. }
      destruct (c =? 91)%N.
      { destruct (skip_ws t) as [|d r] eqn:Ews; [exact I|].
        pose proof (skip_ws_length t) as Hl. rewrite Ews in Hl.
        cbn [length] in Hl.
        destruct (d =? 93)%N; [simpl; lia|].
        apply (consumes_weaken (length (d :: r)));
          [apply IHa; cbn [length]; lia | cbn [length]; lia]. }
      destruct (scan_scalar (c :: t)) as [[v r]|] eqn:E; [|exact I].
      apply scan_scalar_length in E. exact E.
    + intros s acc Hf. cbn [array_items].
      pose proof (IHo s ltac:(lia)) as Hv.
      destruct (scan_once fuel s) as [v r| |]; [|exact I|exact Hv].
      simpl in Hv.
      destruct (skip_ws r) as [|c r'] eqn:Ews; [exact I|].
      apply skip_ws_cons in Ews.
      destruct (c =? 93)%N; [simpl; lia|].
      destruct (c =? 44)%N; [|exact I].
      pose proof (skip_ws_length r') as Hl.
      apply (consumes_weaken (length (skip_ws r'))); [apply IHa; lia | lia].
    + intros s acc Hf. cbn [object_items].
      pose proof (scan_string_consumes s) as Hk.
      destruct (scan_string s) as [key r| |]; [|exact I|exact Hk].
      simpl in Hk.
      destruct (skip_ws r) as [|c r1] eqn:Ews; [exact I|].
      apply skip_ws_cons in Ews.
      destruct (c =? 58)%N; [|exact I].
      pose proof (skip_ws_length r1) as Hl1.
      pose proof (IHo (skip_ws r1) ltac:(lia)) as Hv.
      destruct (scan_once fuel (skip_ws r1)) as [v r2| |]; [|exact I|exact Hv].
      simpl in Hv.
      destruct (skip_ws r2) as [|d r3] eqn:Ews2; [exact I|].
      apply skip_ws_cons in Ews2.
      destruct (d =? 125)%N; [simpl; lia|].
      destruct (d =? 44)%N; [|exact I].
      destruct (skip_ws r3) as [|q r4] eqn:Ews3; [exact I|].
      apply skip_ws_cons in Ews3.
      destruct (q =? 34)%N; [|exact I].
      apply (consumes_weaken (length r4)); [apply IHobj; lia | lia].
Qed.

(** [None] from [json_loads] is never a lack of fuel: the text has a byte
    order mark, does not scan as a value, or has something after the
    value. *)
Lemma loads_fuel_enough (s : pystr) :
  scan_once (loads_fuel s) (skip_ws s) <> OutOfFuel.
Proof.
  intros H.
  pose proof (proj1 (scan_fuel_enough (loads_fuel s)) (skip_ws s)) as Hc.
  rewrite H in Hc. apply Hc.
  pose proof (skip_ws_length s). unfold loads_fuel. lia.
Qed.

End JsonDecoderFacts.

(** ** LLM gateway *)

Lemma call_llm_mock (w : World) (prompt : pystr) (cfg : GenConfig) (n : nat) :
  no_credential w = true ->
  call_llm w prompt cfg n = (Ok (MOCK_MARKER ++ take 150 prompt ++ lit "..."), n).
Proof. intros H. unfold call_llm. rewrite H. reflexivity. Qed.

Lemma call_llm_total (w : World) (prompt : pystr) (cfg : GenConfig) (n : nat) :
  exists out n', call_llm w prompt cfg n = (Ok out, n').
Proof.
  unfold call_llm. destruct (no_credential w).
  - eexists _, _. reflexivity.
  - munfold. destruct (live_call w prompt cfg n) as [[s|e] n1]; eauto.
Qed.

(** C3. [call_llm] never raises and always returns a string.  On the live
    path an exception raised anywhere in the [try] block (by the SDK call
    or by reading the response) becomes the returned string
    ["[ERROR] Gemini SDK call failed: " + str(e)], which starts with the
    marker ["[ERROR]"]; a value computed by the block is returned as it
    is. *)
Theorem call_llm_never_raises (w : World) (prompt : pystr) (cfg : GenConfig)
    (n : nat) :
  (exists out n', call_llm w prompt cfg n = (Ok out, n'))
  /\ (forall e n',
        no_credential w = false /\ live_call w prompt cfg n = (Raise e, n') ->
        call_llm w prompt cfg n = (Ok (ERROR_MARKER ++ exn_msg e), n')
        /\ startswith (ERROR_MARKER ++ exn_msg e) (lit "[ERROR]") = true)
  /\ (forall out n',
        no_credential w = false /\ live_call w prompt cfg n = (Ok out, n') ->
        call_llm w prompt cfg n = (Ok out, n')).
Proof.
  split; [apply call_llm_total|]. split.
  - intros e n' [Hlive Hraise]. unfold call_llm. rewrite Hlive.
    munfold. rewrite Hraise. split; reflexivity.
  - intros out n' [Hlive Hok]. unfold call_llm. rewrite Hlive.
    munfold. rewrite Hok. reflexivity.
Qed.

(** The exception of a failing model comes back as an error string. *)
Lemma call_llm_never_raises_witness :
  call_llm Examples.failing_world (lit "hello") Examples.cfg0 3
  = (Ok (ERROR_MARKER ++ lit "quota exceeded"), 4)
  /\ startswith (ERROR_MARKER ++ lit "quota exceeded") (lit "[ERROR]") = true.
Proof.
  apply (proj1 (proj2 (call_llm_never_raises Examples.failing_world (lit "hello")
                         Examples.cfg0 3)) Examples.boom 4).
  split; reflexivity.
Defined.

(** C8. Without a credential the answer is the mock marker, the first 150
    characters of the prompt and an ellipsis; the model is not called and
    the generation parameters are ignored, so two calls whose prompts
    agree on their first 150 characters return the same string. *)
Theorem call_llm_mock_deterministic (w w' : World) (p p' : pystr)
    (cfg cfg' : GenConfig) (n n' : nat) :
  no_credential w = true ->
  no_credential w' = true ->
  take 150 p = take 150 p' ->
  call_llm w p cfg n = (Ok (lit "[MOCK RESPONSE] " ++ take 150 p ++ lit "..."), n)
  /\ call_llm w' p' cfg' n' = (Ok (lit "[MOCK RESPONSE] " ++ take 150 p ++ lit "..."), n').
Proof.
  intros Hw Hw' Hp. split.
  - apply call_llm_mock. exact Hw.
  - rewrite Hp. apply call_llm_mock. exact Hw'.
Qed.

Lemma call_llm_mock_deterministic_witness :
  call_llm Examples.mock_world Examples.long_prompt_a Examples.cfg0 0
  = (Ok (lit "[MOCK RESPONSE] " ++ repeat 97%N 150 ++ lit "..."), 0)
  /\ call_llm Examples.empty_key_world Examples.long_prompt_b Examples.cfg1 5
     = (Ok (lit "[MOCK RESPONSE] " ++ repeat 97%N 150 ++ lit "..."), 5).
Proof.
  apply (call_llm_mock_deterministic Examples.mock_world Examples.empty_key_world
           Examples.long_prompt_a Examples.long_prompt_b);
    reflexivity.
Defined.

(** ** Response interpreters *)

Lemma prompt_for_str (t label body : pystr) (email : dict) :
  email_body email = JStr body ->
  prompt_for (JStr t) label email = Ok (t ++ label ++ body).
Proof.
  intros Hb. unfold prompt_for. simpl. rewrite Hb. simpl.
  rewrite <- app_assoc. reflexivity.
Qed.

Lemma categorize_email_eq (w : World) (email : dict) (template : json)
    (cfg : GenConfig) (n : nat) (p out : pystr) (n' : nat) :
  prompt_for template EMAIL_LABEL_CAT email = Ok p ->
  call_llm w p cfg n = (Ok out, n') ->
  categorize_email w email template cfg n = (Ok (parse_category out), n').
Proof.
  intros Hp Hc. unfold categorize_email. munfold. rewrite Hp, Hc. reflexivity.
Qed.

Lemma extract_actions_eq (w : World) (email : dict) (template : json)
    (cfg : GenConfig) (n : nat) (p out : pystr) (n' : nat) :
  prompt_for template EMAIL_LABEL email = Ok p ->
  call_llm w p cfg n = (Ok out, n') ->
  extract_actions w email template cfg n = (Ok (parse_actions out), n').
Proof.
  intros Hp Hc. unfold extract_actions. munfold. rewrite Hp, Hc. reflexivity.
Qed.

(** Whatever the cleaned text parses to is returned as it is. *)
Lemma parse_category_verbatim (out : pystr) (v : json) :
  json_loads (clean_fences out) = Some v -> parse_category out = v.
Proof. intros H. unfold parse_category. rewrite H. reflexivity. Qed.




(** C5. For every template and body, when the gateway answers with the
    code-fenced text of the specification, removing the fence markers and
    stripping leaves exactly the JSON text between them, the strict parse
    of that text succeeds, and [categorize_email] returns the parsed
    object with the keys [labels], [priority] and [summary]; nothing
    checks the object against a schema ([parse_category_verbatim]). *)
Theorem categorize_fenced_json (w : World) (email : dict) (t body : pystr)
    (cfg : GenConfig) (n n' : nat) :
  email_body email = JStr body ->
  call_llm w (t ++ EMAIL_LABEL_CAT ++ body) cfg n = (Ok Examples.fenced_output, n') ->
  clean_fences Examples.fenced_output = Examples.json_text
  /\ json_loads Examples.json_text = Some Examples.labelled_object
  /\ categorize_email w email (JStr t) cfg n = (Ok Examples.labelled_object, n').
Proof.
  intros Hb Hc.
  split; [vm_compute; reflexivity|].
  split; [vm_compute; reflexivity|].
  rewrite (categorize_email_eq w email (JStr t) cfg n _ _ n'
             (prompt_for_str t _ body email Hb) Hc).
  rewrite (parse_category_verbatim _ Examples.labelled_object);
    [reflexivity | vm_compute; reflexivity].
Qed.

Lemma categorize_fenced_json_witness :
  clean_fences Examples.fenced_output = Examples.json_text
  /\ json_loads Examples.json_text = Some Examples.labelled_object
  /\ categorize_email (Examples.text_world Examples.fenced_output) Examples.alice
       (JStr (lit "Categorize.")) Examples.cfg0 0
     = (Ok Examples.labelled_object, 1).
Proof.
  apply (categorize_fenced_json (Examples.text_world Examples.fenced_output)
           Examples.alice (lit "Categorize.")
           (lit "Hi," ++ NL ++ lit "Can you approve the Q2 marketing budget?"));
    vm_compute; reflexivity.
Defined.

(** C6. For every template and body: on the gateway output
    [["a","b"]] (a JSON array) [extract_actions] returns the parsed
    sequence of a and b; on the two bulleted lines it returns a and b
    through the fallback, which keeps the non-blank lines and strips
    spaces, dashes, bullets and tabs at both ends; on the empty output it
    returns the empty sequence. *)
Theorem extract_actions_examples (w : World) (email : dict) (t body : pystr)
    (cfg : GenConfig) (n : nat) (out : pystr) (n' : nat) :
  email_body email = JStr body ->
  call_llm w (t ++ EMAIL_LABEL ++ body) cfg n = (Ok out, n') ->
  (out = Examples.array_output ->
     extract_actions w email (JStr t) cfg n = (Ok Examples.two_actions, n'))
  /\ (out = Examples.bullet_output ->
        extract_actions w email (JStr t) cfg n = (Ok Examples.two_actions, n')
        /\ startswith (strip out) (lit "[") = false
        /\ bullet_lines out = [lit "a"; lit "b"])
  /\ (out = [] ->
        extract_actions w email (JStr t) cfg n = (Ok (JArr []), n')).
Proof.
  intros Hb Hc.
  pose proof (extract_actions_eq w email (JStr t) cfg n _ out n'
                (prompt_for_str t _ body email Hb) Hc) as He.
  rewrite He. split; [|split].
  - intros ->. vm_compute. reflexivity.
  - intros ->. vm_compute. repeat split; reflexivity.
  - intros ->. vm_compute. reflexivity.
Qed.

Lemma extract_actions_examples_witness :
  extract_actions (Examples.text_world Examples.array_output) Examples.alice
    (JStr (lit "Extract.")) Examples.cfg0 0 = (Ok Examples.two_actions, 1)
  /\ extract_actions (Examples.dump_world Examples.bullet_output) Examples.alice
       (JStr (lit "Extract.")) Examples.cfg0 0 = (Ok Examples.two_actions, 1)
  /\ extract_actions (Examples.dump_world []) Examples.alice
       (JStr (lit "Extract.")) Examples.cfg0 0 = (Ok (JArr []), 1).
Proof.
  pose (body := lit "Hi," ++ NL ++ lit "Can you approve the Q2 marketing budget?").
  split; [|split].
  - refine (proj1 (extract_actions_examples
                     (Examples.text_world Examples.array_output)
                     Examples.alice (lit "Extract.") body Examples.cfg0 0
                     Examples.array_output 1 _ _) eq_refl);
      vm_compute; reflexivity.
  - refine (proj1 (proj1 (proj2 (extract_actions_examples
                     (Examples.dump_world Examples.bullet_output)
                     Examples.alice (lit "Extract.") body Examples.cfg0 0
                     Examples.bullet_output 1 _ _)) eq_refl));
      vm_compute; reflexivity.
  - refine (proj2 (proj2 (extract_actions_examples (Examples.dump_world [])
                     Examples.alice (lit "Extract.") body Examples.cfg0 0
                     [] 1 _ _)) eq_refl);
      vm_compute; reflexivity.
Defined.

(** ** Thread context collector *)

Lemma join_cons_nonempty (sep x : pystr) (xs : list pystr) :
  x <> [] -> join sep (x :: xs) <> [].
Proof.
  intros Hx. simpl. destruct xs as [|y ys].
  - exact Hx.
  - destruct x as [|c x]; [contradiction|]. discriminate.
Qed.

Lemma join_contains (sep x : pystr) (xs : list pystr) :
  In x xs -> exists pre post, join sep xs = pre ++ x ++ post.
Proof.
  induction xs as [|y ys IH]; [intros []|].
  intros [->|Hin].
  - destruct ys as [|z zs].
    + exists [], []. simpl. rewrite app_nil_r. reflexivity.
    + exists [], (sep ++ join sep (z :: zs)). reflexivity.
  - destruct ys as [|z zs]; [destruct Hin|].
    destruct (IH Hin) as (pre & post & E).
    exists (y ++ sep ++ pre), post.
    change (join sep (y :: z :: zs)) with (y ++ sep ++ join sep (z :: zs)).
    rewrite E. rewrite <- !app_assoc. reflexivity.
Qed.

Lemma in_thread_spec (tid : pystr) (m : dict) :
  in_thread tid m = true <-> dict_get (lit "thread_id") m = Some (JStr tid).
Proof.
  unfold in_thread.
  destruct (dict_get (lit "thread_id") m) as [[| | | |t| |]|];
    try (split; [discriminate|intros [=]]).
  rewrite streq_spec. split; [intros ->; reflexivity | intros [= ->]; reflexivity].
Qed.

Section ThreadContext.

Variable repr_str : pystr -> pystr.
Variable repr_float : pystr -> pystr.

Local Abbreviation block := (thread_block repr_str repr_float).
Local Abbreviation collect := (collect_thread_context repr_str repr_float).

Lemma collect_loop_spec (tid : pystr) (inbox : list dict) (msgs : list pystr) :
  collect_loop repr_str repr_float tid inbox msgs
  = msgs ++ map block (List.filter (in_thread tid) inbox).
Proof.
  revert msgs. induction inbox as [|m rest IH]; intros msgs; simpl.
  - rewrite app_nil_r. reflexivity.
  - destruct (in_thread tid m); rewrite IH; [|reflexivity].
    rewrite <- app_assoc. reflexivity.
Qed.

Lemma thread_block_nonempty (m : dict) : block m <> [].
Proof. unfold thread_block. discriminate. Qed.

Lemma collect_some (inbox : list dict) (c : char) (tid : pystr) :
  collect inbox (Some (c :: tid))
  = match map block (List.filter (in_thread (c :: tid)) inbox) with
    | [] => None
    | (_ :: _) as msgs => Some (join NL msgs)
    end.
Proof.
  unfold collect_thread_context. rewrite collect_loop_spec. reflexivity.
Qed.

(** C7. [collect_thread_context] returns [None] exactly when the thread
    id is [None] or empty or no message of the inbox carries it, and never
    the empty string.  Otherwise it returns one string: the blocks of the
    matching messages, in inbox order, joined by a line feed; it contains
    the block of every matching message, and a block is the sender line,
    the date line, the body and the separator line. *)
Theorem collect_thread_context_spec (inbox : list dict) (thread_id : option pystr) :
  let result := collect inbox thread_id in
  (result = None <->
     thread_id = None \/ thread_id = Some []
     \/ exists tid, thread_id = Some tid
          /\ forall m, In m inbox -> dict_get (lit "thread_id") m <> Some (JStr tid))
  /\ result <> Some []
  /\ (forall tid s,
        thread_id = Some tid /\ result = Some s ->
        s = join NL (map block (List.filter (in_thread tid) inbox))
        /\ forall m, In m inbox /\ dict_get (lit "thread_id") m = Some (JStr tid) ->
             exists pre post, s = pre ++ block m ++ post)
  /\ (forall m sender date body,
        dict_get (lit "from") m = Some (JStr sender)
        /\ dict_get (lit "date") m = Some (JStr date)
        /\ dict_get (lit "body") m = Some (JStr body) ->
        block m = lit "FROM: " ++ sender ++ NL ++ lit "DATE: " ++ date ++ NL
                  ++ body ++ NL ++ lit "---" ++ NL).
Proof.
  cbv zeta. split; [|split; [|split]].
  - destruct thread_id as [[|c tid]|].
    + split; [auto|reflexivity].
    + rewrite collect_some.
      destruct (List.filter (in_thread (c :: tid)) inbox) as [|m ms] eqn:Ef;
        cbn [map].
      * split; [|reflexivity]. intros _. right. right. exists (c :: tid).
        split; [reflexivity|]. intros m Hin Hm.
        apply in_thread_spec in Hm.
        assert (In m (List.filter (in_thread (c :: tid)) inbox)) as Hf
          by (apply filter_In; auto).
        rewrite Ef in Hf. destruct Hf.
      * split; [discriminate|].
        intros [H|[H|(tid' & [= <-] & Hno)]]; try discriminate.
        assert (In m (List.filter (in_thread (c :: tid)) inbox)) as Hm
          by (rewrite Ef; left; reflexivity).
        apply filter_In in Hm. destruct Hm as [Hin Hm].
        exfalso. apply (Hno m Hin). apply in_thread_spec. exact Hm.
    + split; [auto|reflexivity].
  - destruct thread_id as [[|c tid]|]; try discriminate.
    rewrite collect_some.
    destruct (map block (List.filter (in_thread (c :: tid)) inbox)) as [|b bs] eqn:Em;
      [discriminate|].
    intros H. apply (join_cons_nonempty NL b bs); [|congruence].
    destruct (List.filter (in_thread (c :: tid)) inbox); [discriminate|].
    injection Em as <- _. apply thread_block_nonempty.
  - intros tid s [-> Hs].
    destruct tid as [|c tid]; [discriminate|].
    rewrite collect_some in Hs.
    destruct (map block (List.filter (in_thread (c :: tid)) inbox)) as [|b bs] eqn:Em;
      [discriminate|].
    assert (s = join NL (b :: bs)) as -> by congruence.
    split; [reflexivity|].
    intros m [Hin Hm]. apply (join_contains NL (block m) (b :: bs)).
    rewrite <- Em.
    apply in_map. apply filter_In. split; [exact Hin|].
    apply in_thread_spec. exact Hm.
  - intros m sender date body (Hf & Hd & Hb).
    unfold thread_block, fmt_get. rewrite Hf, Hd, Hb. reflexivity.
Qed.

End ThreadContext.

(** Two of the three sample messages are in thread [t1]; the answer holds
    their two blocks, in inbox order. *)
Lemma collect_thread_context_witness :
  collect_thread_context id id Examples.inbox3 (Some (lit "t1"))
  = Some (lit "FROM: alice@company.com" ++ NL ++ lit "DATE: 2025-09-01" ++ NL
          ++ lit "Hi," ++ NL ++ lit "Can you approve the Q2 marketing budget?" ++ NL
          ++ lit "---" ++ NL
          ++ NL
          ++ lit "FROM: carol@vendor.com" ++ NL ++ lit "DATE: 2025-10-15" ++ NL
          ++ lit "Invoice INV-2025-017 is overdue." ++ NL
          ++ lit "---" ++ NL)
  /\ collect_thread_context id id Examples.inbox3 (Some (lit "t2")) = None.
Proof.
  split.
  - pose proof (proj1 (proj2 (proj2 (collect_thread_context_spec id id
                   Examples.inbox3 (Some (lit "t1"))))) (lit "t1")) as H.
    cbv zeta in H.
    destruct (collect_thread_context id id Examples.inbox3 (Some (lit "t1")))
      as [s|] eqn:E; [|vm_compute in E; discriminate E].
    destruct (H s (conj eq_refl eq_refl)) as [-> _]. vm_compute. reflexivity.
  - apply (collect_thread_context_spec id id Examples.inbox3 (Some (lit "t2"))).
    right. right. exists (lit "t2"). split; [reflexivity|].
    intros m Hin. vm_compute in Hin.
    destruct Hin as [<-|[<-|[<-|[]]]]; vm_compute; discriminate.
Defined.

(** ** Ingestion pipeline *)

(** Whether the interpreters raise for an email, and what, depends on the
    templates and the email only: the gateway itself never raises. *)
Lemma interpret_email_raise_indep (w : World) (prompts : dict) (cfg : GenConfig)
    (email : dict) (k : nat) (e : exn) (k' : nat) :
  interpret_email w prompts cfg email k = (Raise e, k') ->
  forall (w2 : World) (cfg2 : GenConfig) (k2 : nat),
    exists k2', interpret_email w2 prompts cfg2 email k2 = (Raise e, k2').
Proof.
  intros H w2 cfg2 k2. revert H.
  unfold interpret_email, categorize_email, extract_actions. munfold.
  destruct (template_of prompts (lit "categorize")) as [cp|e1];
    [|intros [= <- _]; eauto].
  destruct (template_of prompts (lit "extract_actions")) as [ap|e1];
    [|intros [= <- _]; eauto].
  destruct (prompt_for cp EMAIL_LABEL_CAT email) as [p1|e1];
    [|intros [= <- _]; eauto].
  destruct (call_llm_total w p1 cfg k) as (o1 & k1 & ->).
  destruct (call_llm_total w2 p1 cfg2 k2) as (o1' & k1' & ->).
  destruct (prompt_for ap EMAIL_LABEL email) as [p2|e1];
    [|intros [= <- _]; eauto].
  destruct (call_llm_total w p2 cfg k1) as (o2 & k2a & ->).
  discriminate.
Qed.


(** The [try] block, as an equation: it raises exactly when the
    interpreters do, before anything is written. *)
Lemma try_block_eq (w : World) (prompts : dict) (cfg : GenConfig)
    (idx : nat) (email : dict) (st : PipeState) :
  st_inbox st !! idx = Some email ->
  try_block w prompts cfg idx email st =
  match interpret_email w prompts cfg email (st_calls st) with
  | (Ok (c, a), k') =>
      (Ok tt,
       {| st_inbox :=
            <[idx := dict_set K_ACTIONS a (dict_set K_CATEGORY c email)]> (st_inbox st);
          st_results := st_results st ++ [success_record idx c a];
          st_calls := k' |})
  | (Raise e, k') =>
      (Raise e,
       {| st_inbox := st_inbox st; st_results := st_results st; st_calls := k' |})
  end.
Proof.
  intros Hidx.
  unfold try_block, set_field, append_result, with_calls. munfold.
  destruct (interpret_email w prompts cfg email (st_calls st)) as [[[c a]|e] k'];
    cbn [st_inbox st_results st_calls fst snd]; [|reflexivity].
  rewrite Hidx. cbn [st_inbox st_results st_calls].
  rewrite list_lookup_insert_eq by (eapply lookup_lt_Some; exact Hidx).
  cbn [st_inbox st_results st_calls].
  rewrite list_insert_insert_eq. reflexivity.
Qed.

(** One turn of the loop, as an equation. *)
Lemma process_email_eq (w : World) (prompts : dict) (cfg : GenConfig)
    (idx : nat) (email : dict) (st : PipeState) :
  st_inbox st !! idx = Some email ->
  process_email w prompts cfg idx email st =
  match interpret_email w prompts cfg email (st_calls st) with
  | (Ok (c, a), k') =>
      (Ok tt,
       {| st_inbox :=
            <[idx := dict_set K_ACTIONS a (dict_set K_CATEGORY c email)]> (st_inbox st);
          st_results := st_results st ++ [success_record idx c a];
          st_calls := k' |})
  | (Raise e, k') =>
      (Ok tt,
       {| st_inbox := st_inbox st;
          st_results := st_results st ++ [error_record idx (exn_msg e)];
          st_calls := k' |})
  end.
Proof.
  intros Hidx. unfold process_email, try_except.
  rewrite (try_block_eq w prompts cfg idx email st Hidx).
  destruct (interpret_email w prompts cfg email (st_calls st)) as [[[c a]|e] k'];
    reflexivity.
Qed.

Lemma ingest_loop_step (w : World) (prompts : dict) (cfg : GenConfig)
    (fuel idx : nat) (st : PipeState) :
  ingest_loop w prompts cfg (S fuel) idx st =
  match st_inbox st !! idx with
  | None => (Ok tt, st)
  | Some email =>
      match process_email w prompts cfg idx email st with
      | (Ok _, st1) => ingest_loop w prompts cfg fuel (S idx) st1
      | (Raise e, st1) => (Raise e, st1)
      end
  end.
Proof.
  cbn [ingest_loop]. munfold.
  destruct (st_inbox st !! idx); reflexivity.
Qed.

(** The loop invariant: started at position [idx] with [fuel] turns left,
    the loop ends normally, keeps the length of the inbox and the emails
    before [idx], and appends one record per email it visits, each turn
    behaving as [turn_outcome] says on the email as it was at the start. *)
Lemma ingest_loop_spec (w : World) (prompts : dict) (cfg : GenConfig) (fuel : nat) :
  forall (idx : nat) (st : PipeState),
  exists (st' : PipeState) (recs : list dict),
    ingest_loop w prompts cfg fuel idx st = (Ok tt, st')
    /\ length (st_inbox st') = length (st_inbox st)
    /\ st_results st' = st_results st ++ recs
    /\ length recs = Nat.min fuel (length (st_inbox st) - idx)
    /\ (forall j, j < idx -> st_inbox st' !! j = st_inbox st !! j)
    /\ (forall j email,
          j < fuel -> st_inbox st !! (idx + j) = Some email ->
          exists rec email' k k',
            recs !! j = Some rec
            /\ st_inbox st' !! (idx + j) = Some email'
            /\ turn_outcome w prompts cfg (idx + j) email k rec email' k').
Proof.
  induction fuel as [|fuel IH]; intros idx st.
  - exists st, []. cbn [ingest_loop]. rewrite app_nil_r.
    repeat split; try reflexivity. intros j email Hj. lia.
  - rewrite ingest_loop_step.
    destruct (st_inbox st !! idx) as [email|] eqn:Hidx.
    + pose proof (lookup_lt_Some _ _ _ Hidx) as Hlt.
      rewrite (process_email_eq w prompts cfg idx email st Hidx).
      destruct (interpret_email w prompts cfg email (st_calls st))
        as [[[c a]|e] k'] eqn:Hi.
      * match goal with |- context [ingest_loop _ _ _ _ _ ?s] => set (st1 := s) end.
        destruct (IH (S idx) st1) as (st' & recs & Hrun & Hlen & Hres & Hn & Hpre & Hturn).
        subst st1. cbn [st_inbox st_results st_calls] in *.
        rewrite length_insert in Hlen, Hn.
        exists st', (success_record idx c a :: recs).
        split; [exact Hrun|]. split; [exact Hlen|].
        split; [rewrite Hres, <- app_assoc; reflexivity|].
        split; [cbn [length]; lia|].
        split.
        -- intros j Hj. rewrite Hpre by lia.
           apply list_lookup_insert_ne. lia.
        -- intros [|j] email0 Hj Hem.
           ++ rewrite Nat.add_0_r in *. rewrite Hidx in Hem. injection Hem as <-.
              eexists _, _, _, _. split; [reflexivity|]. split.
              ** rewrite Hpre by lia. apply list_lookup_insert_eq. exact Hlt.
              ** apply turn_success. exact Hi.
           ++ rewrite Nat.add_succ_r in *.
              destruct (Hturn j email0) as (rec & email' & k & k2 & Hr & He & Ht).
              { lia. }
              { cbn [Nat.add]. rewrite list_lookup_insert_ne by lia. exact Hem. }
              exists rec, email', k, k2. split; [exact Hr|]. split; [exact He|exact Ht].
      * match goal with |- context [ingest_loop _ _ _ _ _ ?s] => set (st1 := s) end.
        destruct (IH (S idx) st1) as (st' & recs & Hrun & Hlen & Hres & Hn & Hpre & Hturn).
        subst st1. cbn [st_inbox st_results st_calls] in *.
        exists st', (error_record idx (exn_msg e) :: recs).
        split; [exact Hrun|]. split; [exact Hlen|].
        split; [rewrite Hres, <- app_assoc; reflexivity|].
        split; [cbn [length]; lia|].
        split.
        -- intros j Hj. apply Hpre. lia.
        -- intros [|j] email0 Hj Hem.
           ++ rewrite Nat.add_0_r in *. rewrite Hidx in Hem. injection Hem as <-.
              eexists _, _, _, _. split; [reflexivity|]. split.
              ** rewrite Hpre by lia. exact Hidx.
              ** apply turn_failure. exact Hi.
           ++ rewrite Nat.add_succ_r in *.
              destruct (Hturn j email0) as (rec & email' & k & k2 & Hr & He & Ht).
              { lia. }
              { exact Hem. }
              exists rec, email', k, k2. split; [exact Hr|]. split; [exact He|exact Ht].
    + apply lookup_ge_None in Hidx.
      exists st, []. rewrite app_nil_r.
      repeat split; try reflexivity.
      * cbn [length]. lia.
      * intros j email Hj Hem. apply lookup_lt_Some in Hem. lia.
Qed.

(** The whole run: it returns normally, and position [i] of the returned
    inbox and of the results is what one turn makes of email [i] of the
    given inbox. *)
Lemma run_ingestion_pipeline_spec (w : World) (inbox : list dict) (prompts : dict)
    (cfg : GenConfig) (calls : nat) :
  exists (inbox' results : list dict) (calls' : nat),
    run_ingestion_pipeline w inbox prompts cfg calls = (Ok (inbox', results), calls')
    /\ length inbox' = length inbox
    /\ length results = length inbox
    /\ (forall i email,
          inbox !! i = Some email ->
          exists rec email' k k',
            results !! i = Some rec
            /\ inbox' !! i = Some email'
            /\ turn_outcome w prompts cfg i email k rec email' k').
Proof.
  unfold run_ingestion_pipeline.
  destruct (ingest_loop_spec w prompts cfg (length inbox) 0
              {| st_inbox := inbox; st_results := []; st_calls := calls |})
    as (st' & recs & Hrun & Hlen & Hres & Hn & _ & Hturn).
  cbn [st_inbox st_results st_calls] in *.
  rewrite Hrun. exists (st_inbox st'), (st_results st'), (st_calls st').
  split; [reflexivity|]. split; [exact Hlen|].
  rewrite Hres. cbn [app]. split; [lia|].
  intros i email Hi.
  apply (Hturn i email); [eapply lookup_lt_Some; exact Hi | exact Hi].
Qed.

Ltac key_neq := let H := fresh in intros H; vm_compute in H; discriminate H.


Lemma turn_outcome_frame (w : World) (prompts : dict) (cfg : GenConfig) (i : nat)
    (email : dict) (k : nat) (rec email' : dict) (k' : nat) :
  turn_outcome w prompts cfg i email k rec email' k' ->
  other_fields email' = other_fields email.
Proof.
  intros [c a k2 Hi|e k2 Hi]; [|reflexivity].
  unfold other_fields. rewrite !dict_without_set by reflexivity. reflexivity.
Qed.

Lemma other_fields_get (key : pystr) (email : dict) :
  key <> K_CATEGORY -> key <> K_ACTIONS ->
  dict_get key (other_fields email) = dict_get key email.
Proof.
  intros Hc Ha. unfold other_fields. apply dict_get_without.
  cbn [existsb]. rewrite (streq_neq key K_CATEGORY Hc), (streq_neq key K_ACTIONS Ha).
  reflexivity.
Qed.


(** C2. An exception raised while one email is processed (by a template
    lookup or by either interpreter) is caught in that turn of the loop:
    the turn ends normally, the inbox is as it was before the turn (so no
    [category] is written when the extraction that follows the
    categorization raises), and the record of the index and of [str(e)]
    is appended.  The run as a whole returns normally with one record per
    email, and an email for which the interpreters raise is returned as it
    was given, with its error record at its index. *)
Theorem run_ingestion_pipeline_failure_policy (w : World) (inbox : list dict)
    (prompts : dict) (cfg : GenConfig) (calls : nat) :
  (forall idx email st e st1,
      st_inbox st !! idx = Some email
      /\ try_block w prompts cfg idx email st = (Raise e, st1) ->
      exists st2,
        process_email w prompts cfg idx email st = (Ok tt, st2)
        /\ st_inbox st2 = st_inbox st
        /\ st_results st2 = st_results st ++ [error_record idx (exn_msg e)])
  /\ exists (inbox' results : list dict) (calls' : nat),
       run_ingestion_pipeline w inbox prompts cfg calls
       = (Ok (inbox', results), calls')
       /\ length results = length inbox
       /\ (forall i email k e k',
             inbox !! i = Some email
             /\ interpret_email w prompts cfg email k = (Raise e, k') ->
             inbox' !! i = Some email
             /\ results !! i = Some (error_record i (exn_msg e))).
Proof.
  split.
  - intros idx email st e st1 [Hidx Hraise].
    rewrite (try_block_eq w prompts cfg idx email st Hidx) in Hraise.
    rewrite (process_email_eq w prompts cfg idx email st Hidx).
    destruct (interpret_email w prompts cfg email (st_calls st)) as [[[c a]|e'] k'];
      [discriminate Hraise|].
    injection Hraise as <- _. eexists. split; [reflexivity|]. split; reflexivity.
  - destruct (run_ingestion_pipeline_spec w inbox prompts cfg calls)
      as (inbox' & results & calls' & Hrun & Hlen & Hres & Hturn).
    exists inbox', results, calls'.
    split; [exact Hrun|]. split; [exact Hres|].
    intros i email k e k' [Hi Hraise].
    destruct (Hturn i email Hi) as (rec & email' & k1 & k1' & Hr & He & Ht).
    destruct (interpret_email_raise_indep _ _ _ _ _ _ _ Hraise w cfg k1) as [k2 Hk2].
    destruct Ht as [c a k3 Hok|e' k3 Herr].
    + rewrite Hk2 in Hok. discriminate Hok.
    + rewrite Hk2 in Herr. injection Herr as <- _. split; assumption.
Qed.

(** The template of [extract_actions] is a number: the categorization of
    the first sample email succeeds (the model is called once), the
    extraction raises, the email is returned without a [category] and the
    error record is in the results. *)
Lemma run_ingestion_pipeline_failure_policy_witness :
  exists (inbox' results : list dict) (calls' : nat),
    run_ingestion_pipeline (Examples.text_world Examples.fenced_output)
      Examples.inbox3 Examples.prompts_bad_actions Examples.cfg0 0
    = (Ok (inbox', results), calls')
    /\ length results = 3
    /\ inbox' !! 0 = Some Examples.alice
    /\ dict_get K_CATEGORY Examples.alice = None
    /\ results !! 0
       = Some (error_record 0
                 (lit "unsupported operand type(s) for +: 'int' and 'str'")).
Proof.
  destruct (proj2 (run_ingestion_pipeline_failure_policy
                     (Examples.text_world Examples.fenced_output)
                     Examples.inbox3 Examples.prompts_bad_actions Examples.cfg0 0))
    as (inbox' & results & calls' & Hrun & Hlen & Hfail).
  exists inbox', results, calls'.
  split; [exact Hrun|]. split; [exact Hlen|].
  destruct (Hfail 0 Examples.alice 0
              (type_error (lit "unsupported operand type(s) for +: 'int' and 'str'")) 1)
    as [Hin Hrec].
  { split; vm_compute; reflexivity. }
  split; [exact Hin|]. split; [reflexivity|exact Hrec].
Defined.







(** C10. The returned inbox has the emails of the given one, in the same
    order, none added or removed, and each differs from the original at
    most in its [category] and [action_items] fields: with these two keys
    left out the emails are the same entries in the same order, so every
    other key ([from], [to], [subject], [date], [body], [archived],
    [thread_id], ...) reads the same. *)
Theorem run_ingestion_pipeline_frame (w : World) (inbox : list dict)
    (prompts : dict) (cfg : GenConfig) (calls : nat) :
  exists (inbox' results : list dict) (calls' : nat),
    run_ingestion_pipeline w inbox prompts cfg calls = (Ok (inbox', results), calls')
    /\ length inbox' = length inbox
    /\ map other_fields inbox' = map other_fields inbox
    /\ (forall i email email' key,
          inbox !! i = Some email /\ inbox' !! i = Some email'
          /\ key <> K_CATEGORY /\ key <> K_ACTIONS ->
          dict_get key email' = dict_get key email).
Proof.
  destruct (run_ingestion_pipeline_spec w inbox prompts cfg calls)
    as (inbox' & results & calls' & Hrun & Hlen & Hres & Hturn).
  exists inbox', results, calls'.
  split; [exact Hrun|]. split; [exact Hlen|].
  assert (forall i email email',
             inbox !! i = Some email -> inbox' !! i = Some email' ->
             other_fields email' = other_fields email) as Hframe.
  { intros i email email' Hi Hi'.
    destruct (Hturn i email Hi) as (rec & email2 & k & k' & _ & He & Ht).
    rewrite Hi' in He. injection He as <-.
    apply (turn_outcome_frame _ _ _ _ _ _ _ _ _ Ht). }
  split.
  - apply list_eq. intros i. rewrite !list_lookup_fmap.
    destruct (inbox !! i) as [email|] eqn:Hi.
    + destruct (Hturn i email Hi) as (rec & email' & k & k' & _ & He & Ht).
      rewrite He. cbn. f_equal. apply (Hframe i email email' Hi He).
    + apply lookup_ge_None in Hi. rewrite <- Hlen in Hi.
      apply lookup_ge_None in Hi. rewrite Hi. reflexivity.
  - intros i email email' key (Hi & Hi' & Hc & Ha).
    rewrite <- (other_fields_get key email' Hc Ha),
            <- (other_fields_get key email Hc Ha).
    rewrite (Hframe i email email' Hi Hi'). reflexivity.
Qed.

(** The sample inbox after a mock run: the sender, the body and the thread
    id of the emails read as before. *)
Lemma run_ingestion_pipeline_frame_witness :
  exists (inbox' results : list dict) (calls' : nat),
    run_ingestion_pipeline Examples.mock_world Examples.inbox3 Examples.prompts_ok
      Examples.cfg0 0 = (Ok (inbox', results), calls')
    /\ length inbox' = 3
    /\ map other_fields inbox' = map other_fields Examples.inbox3
    /\ (forall email', inbox' !! 2 = Some email' ->
          dict_get (lit "from") email' = Some (JStr (lit "carol@vendor.com"))
          /\ dict_get (lit "thread_id") email' = Some (JStr (lit "t1"))).
Proof.
  destruct (run_ingestion_pipeline_frame Examples.mock_world Examples.inbox3
              Examples.prompts_ok Examples.cfg0 0)
    as (inbox' & results & calls' & Hrun & Hlen & Hmap & Hkeys).
  exists inbox', results, calls'.
  split; [exact Hrun|]. split; [exact Hlen|]. split; [exact Hmap|].
  intros email' He. split.
  - rewrite (Hkeys 2 Examples.carol email' (lit "from")); [reflexivity|].
    split; [reflexivity|]. split; [exact He|]. split; key_neq.
  - rewrite (Hkeys 2 Examples.carol email' (lit "thread_id")); [reflexivity|].
    split; [reflexivity|]. split; [exact He|]. split; key_neq.
Defined.

(** * Further properties of the code *)

(** ** [strip], [replace] and [splitlines] *)

Lemma lstrip_by_app_keep (f : char -> bool) (x : pystr) (b : char) (y : pystr) :
  f b = false -> lstrip_by f (x ++ b :: y) = lstrip_by f x ++ b :: y.
Proof.
  intros Hb. induction x as [|c x IH]; simpl.
  - rewrite Hb. reflexivity.
  - destruct (f c); [exact IH | reflexivity].
Qed.

Lemma rstrip_by_app_keep (f : char -> bool) (l1 : pystr) (b : char) (l2 : pystr) :
  f b = false -> rstrip_by f (l1 ++ b :: l2) = l1 ++ b :: rstrip_by f l2.
Proof.
  intros Hb. unfold rstrip_by.
  rewrite rev_app_distr. cbn [rev]. rewrite <- app_assoc. cbn [app].
  rewrite (lstrip_by_app_keep f (rev l2) b (rev l1) Hb).
  rewrite rev_app_distr. cbn [rev]. rewrite rev_involutive, <- app_assoc.
  reflexivity.
Qed.

Lemma lstrip_by_split (f : char -> bool) (s : pystr) :
  exists pre, s = pre ++ lstrip_by f s /\ forallb f pre = true.
Proof.
  induction s as [|c s (pre & E & Hpre)]; simpl.
  - exists []. split; reflexivity.
  - destruct (f c) eqn:Hc.
    + exists (c :: pre). simpl. rewrite Hc, Hpre. split; [f_equal; exact E | reflexivity].
    + exists []. split; reflexivity.
Qed.

Lemma lstrip_by_head (f : char -> bool) (s : pystr) (c : char) (r : pystr) :
  lstrip_by f s = c :: r -> f c = false.
Proof.
  induction s as [|d s IH]; simpl; [discriminate|].
  destruct (f d) eqn:Hd; [exact IH|]. intros [= <- _]. exact Hd.
Qed.

Lemma lstrip_by_nil (f : char -> bool) (s : pystr) :
  lstrip_by f s = [] <-> forallb f s = true.
Proof.
  induction s as [|c s IH]; simpl; [tauto|].
  destruct (f c); simpl; [exact IH|]. split; discriminate.
Qed.

Lemma forallb_rev (f : char -> bool) (s : pystr) :
  forallb f (rev s) = forallb f s.
Proof.
  induction s as [|c s IH]; [reflexivity|].
  cbn [rev]. rewrite forallb_app, IH. simpl.
  destruct (f c), (forallb f s); reflexivity.
Qed.

(** What [strip] returns, completely: the text is a stripped prefix, the
    result and a stripped suffix, and the result neither starts nor ends
    with a stripped character. *)
Lemma strip_by_spec (f : char -> bool) (s : pystr) :
  (exists pre post,
      s = pre ++ strip_by f s ++ post
      /\ forallb f pre = true /\ forallb f post = true)
  /\ (forall c r, strip_by f s = c :: r -> f c = false)
  /\ (forall c r, strip_by f s = r ++ [c] -> f c = false).
Proof.
  unfold strip_by, rstrip_by.
  destruct (lstrip_by_split f s) as (pre & Es & Hpre).
  set (t := lstrip_by f s) in *.
  destruct (lstrip_by_split f (rev t)) as (post & Et & Hpost).
  set (u := lstrip_by f (rev t)) in *.
  assert (t = rev u ++ rev post) as Etu.
  { rewrite <- (rev_involutive t), Et, rev_app_distr. reflexivity. }
  split; [|split].
  - exists pre, (rev post). split; [|split].
    + rewrite Es at 1. rewrite Etu. reflexivity.
    + exact Hpre.
    + rewrite forallb_rev. exact Hpost.
  - intros c r Hu.
    destruct t as [|d t'] eqn:Ht.
    + subst u. cbn in Hu. discriminate Hu.
    + assert (f d = false) as Hd by (eapply lstrip_by_head; exact Ht).
      destruct (rev u) as [|c0 r0] eqn:Eru; [discriminate Hu|].
      injection Hu as -> ->. cbn in Etu. injection Etu as -> _. exact Hd.
  - intros c r Hu.
    assert (u = c :: rev r) as Eu.
    { rewrite <- (rev_involutive u), Hu, rev_app_distr. reflexivity. }
    eapply lstrip_by_head. exact Eu.
Qed.

Lemma strip_by_nil (f : char -> bool) (s : pystr) :
  strip_by f s = [] <-> forallb f s = true.
Proof.
  destruct (strip_by_spec f s) as ((pre & post & E & Hpre & Hpost) & _).
  split.
  - intros H. rewrite H in E. rewrite E. cbn [app].
    rewrite forallb_app, Hpre, Hpost. reflexivity.
  - intros H. unfold strip_by.
    apply lstrip_by_nil in H. rewrite H. reflexivity.
Qed.

(** A text whose second character is not stripped keeps its first two
    characters when neither is stripped. *)
Lemma strip_by_keep_two (f : char -> bool) (a b : char) (s : pystr) :
  f a = false -> f b = false ->
  strip_by f (a :: b :: s) = a :: b :: rstrip_by f s.
Proof.
  intros Ha Hb. unfold strip_by. cbn [lstrip_by]. rewrite Ha.
  apply (rstrip_by_app_keep f [a] b s Hb).
Qed.

Lemma replace_from_keep (o : char) (old new : pystr) (c : char) (s : pystr) :
  c <> o ->
  replace_from (o :: old) new 0 (c :: s) = c :: replace_from (o :: old) new 0 s.
Proof.
  intros Hne. cbn [replace_from startswith].
  destruct (N.eqb_spec o c) as [->|_]; [contradiction|]. reflexivity.
Qed.

(** [replace] leaves alone a prefix in which the first character of the
    searched text does not occur. *)
Lemma replace_keep_prefix (o : char) (old new pre s : pystr) :
  forallb (fun c => negb (c =? o)%N) pre = true ->
  replace (pre ++ s) (o :: old) new = pre ++ replace s (o :: old) new.
Proof.
  unfold replace. induction pre as [|c pre IH]; [reflexivity|].
  cbn [forallb app]. rewrite andb_true_iff, negb_true_iff, N.eqb_neq.
  intros [Hc Hpre]. rewrite replace_from_keep by exact Hc.
  rewrite (IH Hpre). reflexivity.
Qed.

Lemma splitlines_from_no_break (cur s : pystr) :
  forallb (fun c => negb (islinebreak c)) cur = true ->
  Forall (fun l => forallb (fun c => negb (islinebreak c)) l = true)
         (splitlines_from cur s).
Proof.
  intros Hcur. remember (length s) as n eqn:Hn. revert cur s Hn Hcur.
  induction n as [n IH] using lt_wf_ind. intros cur s Hn Hcur.
  destruct s as [|c s']; cbn [splitlines_from].
  - destruct cur; [constructor|].
    constructor; [|constructor]. rewrite forallb_rev. exact Hcur.
  - cbn [length] in Hn. destruct (islinebreak c) eqn:Hc.
    + constructor; [rewrite forallb_rev; exact Hcur|].
      destruct s' as [|d s'']; [constructor|]. cbn [length] in Hn.
      destruct ((c =? 13) && (d =? 10))%N.
      * apply (IH (length s'')); [lia|reflexivity|reflexivity].
      * apply (IH (length (d :: s''))); [cbn [length]; lia|reflexivity|reflexivity].
    + apply (IH (length s')); [lia|reflexivity|].
      cbn [forallb]. rewrite Hc, Hcur. reflexivity.
Qed.

(** ** More on the JSON decoder *)

Module JsonDecoderShape.
Import JsonDecoder.

Lemma startswith_head_ne (c : char) (t : pystr) (d : char) (p : pystr) :
  c <> d -> startswith (c :: t) (d :: p) = false.
Proof.
  intros Hne. cbn [startswith].
  destruct (N.eqb_spec d c) as [->|_]; [contradiction|reflexivity].
Qed.

Lemma scan_scalar_head (c : char) (t : pystr) :
  value_start c = false -> scan_scalar (c :: t) = None.
Proof.
  unfold value_start. rewrite !orb_false_iff, !N.eqb_neq.
  intros H. decompose [and] H. clear H.
  unfold scan_scalar, or_else, scan_constant, scan_number, scan_int.
  change (lit "null") with (110%N :: lit "ull").
  change (lit "true") with (116%N :: lit "rue").
  change (lit "false") with (102%N :: lit "alse").
  change (lit "NaN") with (78%N :: lit "aN").
  change (lit "Infinity") with (73%N :: lit "nfinity").
  change (lit "-Infinity") with (45%N :: lit "Infinity").
  rewrite !startswith_head_ne by assumption.
  destruct (N.eqb_spec c 45) as [->|_]; [contradiction|].
  match goal with Hd : is_digit c = false |- _ =>
    rewrite Hd;
    destruct (N.eqb_spec c 48) as [->|_]; [discriminate Hd|]
  end.
  reflexivity.
Qed.

(** A value is scanned only from a text that starts like one. *)
Lemma scan_once_head (fuel : nat) (c : char) (t : pystr) (v : json) (r : pystr) :
  scan_once fuel (c :: t) = Scanned v r -> value_start c = true.
Proof.
  destruct (value_start c) eqn:Hs; [reflexivity|].
  destruct fuel as [|f]; [discriminate|]. cbn [scan_once].
  pose proof Hs as Hs'. unfold value_start in Hs'.
  rewrite !orb_false_iff in Hs'. decompose [and] Hs'. clear Hs'.
  repeat match goal with
         | H : (c =? _)%N = false |- _ => rewrite ?H; clear H
         end.
  rewrite (scan_scalar_head c t Hs). discriminate.
Qed.

Lemma isspace_not_value_start (c : char) :
  isspace c = true -> value_start c = false.
Proof.
  intros Hsp. destruct (value_start c) eqn:Hv; [|reflexivity]. exfalso.
  revert Hsp Hv. unfold isspace, value_start, is_digit, in_range.
  rewrite !orb_true_iff, !andb_true_iff, !N.leb_le, !N.eqb_eq. lia.
Qed.

Lemma array_items_is_array (fuel : nat) :
  forall s acc v r,
    array_items fuel s acc = Scanned v r -> exists xs, v = JArr xs.
Proof.
  induction fuel as [|f IH]; intros s acc v r; [discriminate|].
  cbn [array_items].
  destruct (scan_once f s) as [x r0| |]; try discriminate.
  destruct (skip_ws r0) as [|c r']; [discriminate|].
  destruct (c =? 93)%N; [intros [= <- _]; eauto|].
  destruct (c =? 44)%N; [apply IH | discriminate].
Qed.

Lemma scan_once_bracket (fuel : nat) (t : pystr) (v : json) (r : pystr) :
  scan_once fuel (91%N :: t) = Scanned v r -> exists xs, v = JArr xs.
Proof.
  destruct fuel as [|f]; [discriminate|]. cbn [scan_once].
  change (91 =? 34)%N with false. change (91 =? 123)%N with false.
  change (91 =? 91)%N with true. cbv iota.
  destruct (skip_ws t) as [|d r0]; [discriminate|].
  destruct (d =? 93)%N; [intros [= <- _]; eauto|].
  apply array_items_is_array.
Qed.

Lemma lstrip_by_weaken (f g : char -> bool) (s : pystr) (c : char) (r : pystr) :
  (forall x, f x = true -> g x = true) ->
  lstrip_by f s = c :: r -> g c = false -> lstrip_by g s = c :: r.
Proof.
  intros Hfg. induction s as [|d s IH]; simpl; [discriminate|].
  destruct (f d) eqn:Hd.
  - rewrite (Hfg d Hd). exact IH.
  - intros [= -> ->] Hg. rewrite Hg. reflexivity.
Qed.

Lemma is_ws_isspace (c : char) : is_ws c = true -> isspace c = true.
Proof.
  unfold is_ws, isspace, in_range.
  rewrite !orb_true_iff, !andb_true_iff, !N.leb_le, !N.eqb_eq. lia.
Qed.

(** A text that, stripped, starts with a bracket decodes to an array or
    not at all. *)
Lemma loads_bracket_is_array (out : pystr) (v : json) :
  startswith (strip out) (lit "[") = true ->
  loads out = Some v -> exists xs, v = JArr xs.
Proof.
  intros Hstart. unfold loads.
  destruct (startswith out [65279%N]); [discriminate|].
  destruct (scan_once (loads_fuel out) (skip_ws out)) as [x r| |] eqn:Escan;
    try discriminate.
  destruct (skip_ws r); [|discriminate]. intros [= ->].
  destruct (skip_ws out) as [|c t] eqn:Ews.
  { unfold loads_fuel in Escan. rewrite Nat.add_comm in Escan. discriminate Escan. }
  pose proof (scan_once_head _ _ _ _ _ Escan) as Hvs.
  assert (isspace c = false) as Hsp.
  { destruct (isspace c) eqn:E; [|reflexivity].
    rewrite (isspace_not_value_start c E) in Hvs. discriminate Hvs. }
  pose proof (lstrip_by_weaken is_ws isspace out c t is_ws_isspace Ews Hsp) as Hl.
  unfold strip, strip_by in Hstart. rewrite Hl in Hstart.
  pose proof (rstrip_by_app_keep isspace [] c t Hsp) as Hr.
  cbn [app] in Hr. rewrite Hr in Hstart.
  change (lit "[") with [91%N] in Hstart. cbn [startswith] in Hstart.
  apply andb_true_iff in Hstart. destruct Hstart as [Hstart _].
  apply N.eqb_eq in Hstart. subst c.
  eapply scan_once_bracket. exact Escan.
Qed.

(** A bracket followed by a character that starts no value and is neither
    white space nor a closing bracket is not JSON. *)
Lemma loads_bracket_word (c : char) (rest : pystr) :
  value_start c = false -> is_ws c = false -> c <> 93%N ->
  loads (91%N :: c :: rest) = None.
Proof.
  intros Hv Hw Hc. unfold loads.
  change (startswith (91%N :: c :: rest) [65279%N]) with false. cbv iota.
  unfold skip_ws at 1. cbn [lstrip_by].
  change (is_ws 91%N) with false. cbv iota.
  destruct (loads_fuel (91%N :: c :: rest)) as [|f]; [reflexivity|].
  cbn [scan_once].
  change (91 =? 34)%N with false. change (91 =? 123)%N with false.
  change (91 =? 91)%N with true. cbv iota.
  unfold skip_ws at 1. cbn [lstrip_by]. rewrite Hw.
  destruct (N.eqb_spec c 93) as [->|_]; [contradiction|].
  destruct f as [|f]; [reflexivity|]. cbn [array_items].
  destruct (scan_once f (c :: rest)) as [x r| |] eqn:E; try reflexivity.
  apply scan_once_head in E. rewrite Hv in E. discriminate E.
Qed.

End JsonDecoderShape.

(** ** More on the response interpreters *)

Lemma strip_trimmed (f : char -> bool) (s : pystr) : trimmed f (strip_by f s).
Proof. destruct (strip_by_spec f s) as (_ & H1 & H2). split; assumption. Qed.

Lemma forallb_infix (f : char -> bool) (pre s post : pystr) :
  forallb f (pre ++ s ++ post) = true -> forallb f s = true.
Proof.
  rewrite !forallb_app, !andb_true_iff. tauto.
Qed.

(** X1. [extract_actions] returns a list whenever it returns: the parsed
    value is used only when the stripped output starts with a bracket,
    and such a text decodes to an array or not at all; otherwise the
    result is the list of stripped lines.  It raises only when the prompt
    cannot be built, and then no call has been made. *)
Theorem extract_actions_returns_list (w : World) (email : dict) (template : json)
    (cfg : GenConfig) (n : nat) :
  match extract_actions w email template cfg n with
  | (Ok v, _) => exists xs, v = JArr xs
  | (Raise e, n') => prompt_for template EMAIL_LABEL email = Raise e /\ n' = n
  end.
Proof.
  unfold extract_actions. munfold.
  destruct (prompt_for template EMAIL_LABEL email) as [p|e]; [|split; reflexivity].
  destruct (call_llm_total w p cfg n) as (out & n' & ->).
  unfold parse_actions.
  destruct (startswith (strip out) (lit "[")) eqn:Hs; [|eauto].
  destruct (json_loads out) as [v|] eqn:Hj; [|eauto].
  apply (JsonDecoderShape.loads_bracket_is_array out v Hs Hj).
Qed.

(** X2. Every item of the bullet-list fallback comes from a non-blank line
    of the output, neither starts nor ends with a space, dash, bullet or
    tab, and contains no line break. *)
Theorem bullet_lines_items (out : pystr) :
  Forall (fun item =>
            (exists line,
                In line (splitlines out)
                /\ strip line <> []
                /\ item = strip_chars BULLET_CHARS line)
            /\ trimmed bullet_char item
            /\ forallb (fun c => negb (islinebreak c)) item = true)
         (bullet_lines out).
Proof.
  apply List.Forall_forall. intros item Hin.
  unfold bullet_lines in Hin. apply in_map_iff in Hin.
  destruct Hin as (line & <- & Hline). apply filter_In in Hline.
  destruct Hline as [Hline Hnb].
  split; [|split].
  - exists line. split; [exact Hline|]. split; [|reflexivity].
    intros E. rewrite E in Hnb. discriminate Hnb.
  - apply (strip_trimmed bullet_char line).
  - pose proof (splitlines_from_no_break [] out eq_refl) as Hall.
    rewrite List.Forall_forall in Hall. specialize (Hall line Hline).
    destruct (strip_by_spec bullet_char line) as ((pre & post & E & _) & _).
    rewrite E in Hall. apply forallb_infix in Hall. exact Hall.
Qed.

(** X3. The fallback can return empty items: a line that is not blank and
    consists only of spaces, dashes, bullets and tabs (a rule of dashes,
    say) becomes the empty string, and only such lines do. *)
Theorem bullet_lines_empty_item (out : pystr) :
  In [] (bullet_lines out) <->
  exists line,
    In line (splitlines out)
    /\ strip line <> []
    /\ forallb bullet_char line = true.
Proof.
  unfold bullet_lines. rewrite in_map_iff. split.
  - intros (line & Hitem & Hline). apply filter_In in Hline.
    destruct Hline as [Hline Hnb]. exists line.
    split; [exact Hline|]. split.
    + intros E. rewrite E in Hnb. discriminate Hnb.
    + apply (strip_by_nil bullet_char). exact Hitem.
  - intros (line & Hline & Hnb & Hall). exists line. split.
    + apply (strip_by_nil bullet_char). exact Hall.
    + apply filter_In. split; [exact Hline|].
      destruct (strip line); [contradiction|reflexivity].
Qed.

(** The fences are searched for after the first two characters when these
    are neither backticks nor white space. *)
Lemma clean_fences_keep_two (a b : char) (s : pystr) :
  a <> 96%N -> b <> 96%N -> isspace a = false -> isspace b = false ->
  exists r, clean_fences (a :: b :: s) = a :: b :: r.
Proof.
  intros Ha Hb Hsa Hsb. unfold clean_fences, FENCE_JSON, FENCE.
  change (lit "```json") with (96%N :: lit "``json").
  change (lit "```") with (96%N :: lit "``").
  assert (forallb (fun c => negb (c =? 96)%N) [a; b] = true) as Hpre.
  { cbn [forallb]. apply N.eqb_neq in Ha, Hb. rewrite Ha, Hb. reflexivity. }
  change (a :: b :: s) with ([a; b] ++ s).
  rewrite (replace_keep_prefix 96%N _ [] [a; b] s Hpre).
  rewrite (replace_keep_prefix 96%N _ [] [a; b] _ Hpre).
  cbn [app]. unfold strip. rewrite (strip_by_keep_two isspace a b _ Hsa Hsb).
  eauto.
Qed.

(** Neither a mock answer nor an error answer is JSON, cleaned or not:
    both start with a bracket followed by a capital letter. *)
Lemma bracket_capital_not_json (c : char) (rest : pystr) :
  c = 77%N \/ c = 69%N ->
  json_loads (91%N :: c :: rest) = None
  /\ json_loads (clean_fences (91%N :: c :: rest)) = None
  /\ startswith (strip (91%N :: c :: rest)) (lit "[") = true.
Proof.
  intros Hc.
  assert (value_start c = false /\ JsonDecoder.is_ws c = false
          /\ c <> 93%N /\ c <> 96%N /\ isspace c = false) as (Hv & Hw & H93 & H96 & Hs).
  { destruct Hc as [-> | ->]; repeat split; try reflexivity; discriminate. }
  split; [|split].
  - apply JsonDecoderShape.loads_bracket_word; assumption.
  - destruct (clean_fences_keep_two 91%N c rest) as [r Hr];
      [discriminate | exact H96 | reflexivity | exact Hs |].
    refine (eq_trans (f_equal json_loads Hr) _).
    apply JsonDecoderShape.loads_bracket_word; assumption.
  - refine (eq_trans (f_equal (fun x => startswith x (lit "["))
                        (strip_by_keep_two isspace 91%N c rest eq_refl Hs)) _).
    reflexivity.
Qed.

Lemma mock_answer_not_json (x : pystr) :
  json_loads (MOCK_MARKER ++ x) = None
  /\ json_loads (clean_fences (MOCK_MARKER ++ x)) = None
  /\ startswith (strip (MOCK_MARKER ++ x)) (lit "[") = true.
Proof.
  exact (bracket_capital_not_json 77%N (lit "OCK RESPONSE] " ++ x)
           (or_introl eq_refl)).
Qed.


(** X4. Without a credential the interpreters never return structured
    data: for every template and body the category is the wrapper around
    the mock answer and the action items are the stripped non-blank lines
    of the mock answer; no call is made. *)
Theorem interpreters_in_mock_mode (w : World) (email : dict) (t body : pystr)
    (cfg : GenConfig) (n : nat) :
  no_credential w = true ->
  email_body email = JStr body ->
  categorize_email w email (JStr t) cfg n
  = (Ok (JObj [(lit "text",
                JStr (MOCK_MARKER ++ take 150 (t ++ EMAIL_LABEL_CAT ++ body)
                      ++ lit "..."))]), n)
  /\ extract_actions w email (JStr t) cfg n
     = (Ok (JArr (map JStr
                    (bullet_lines (MOCK_MARKER ++ take 150 (t ++ EMAIL_LABEL ++ body)
                                   ++ lit "...")))), n).
Proof.
  intros Hw Hb. split.
  - rewrite (categorize_email_eq w email (JStr t) cfg n _ _ n
               (prompt_for_str t _ body email Hb) (call_llm_mock w _ cfg n Hw)).
    unfold parse_category.
    rewrite (proj1 (proj2 (mock_answer_not_json _))). reflexivity.
  - rewrite (extract_actions_eq w email (JStr t) cfg n _ _ n
               (prompt_for_str t _ body email Hb) (call_llm_mock w _ cfg n Hw)).
    unfold parse_actions.
    rewrite (proj2 (proj2 (mock_answer_not_json _))),
            (proj1 (mock_answer_not_json _)).
    reflexivity.
Qed.

Lemma interpreters_in_mock_mode_witness :
  categorize_email Examples.empty_key_world Examples.carol (JStr (lit "Categorize."))
    Examples.cfg0 4
  = (Ok (JObj [(lit "text",
                JStr (lit "[MOCK RESPONSE] Categorize." ++ EMAIL_LABEL_CAT
                      ++ lit "Invoice INV-2025-017 is overdue...."))]), 4)
  /\ extract_actions Examples.empty_key_world Examples.carol (JStr (lit "Extract."))
       Examples.cfg0 4
     = (Ok (JArr [JStr (lit "[MOCK RESPONSE] Extract.");
                  JStr (lit "EMAIL:");
                  JStr (lit "Invoice INV-2025-017 is overdue....")]), 4).
Proof.
  pose proof (interpreters_in_mock_mode Examples.empty_key_world Examples.carol
                (lit "Categorize.") (lit "Invoice INV-2025-017 is overdue.")
                Examples.cfg0 4 eq_refl eq_refl) as [Hc _].
  pose proof (interpreters_in_mock_mode Examples.empty_key_world Examples.carol
                (lit "Extract.") (lit "Invoice INV-2025-017 is overdue.")
                Examples.cfg0 4 eq_refl eq_refl) as [_ Ha].
  split; [exact Hc | exact Ha].
Defined.



(** X6. Called on an email whose body is present and is not a string, the
    three interpreters raise the [TypeError] of the string concatenation
    and make no gateway call; nothing in them catches it. *)
Theorem interpreters_reject_body (w : World) (email : dict) (t : pystr)
    (cfg : GenConfig) (ctx : option pystr) (n : nat) (v : json) :
  email_body email = v ->
  (forall s, v <> JStr s) ->
  let e := type_error (lit "can only concatenate str (not " ++ [34%N]
                       ++ type_name v ++ [34%N] ++ lit ") to str") in
  categorize_email w email (JStr t) cfg n = (Raise e, n)
  /\ extract_actions w email (JStr t) cfg n = (Raise e, n)
  /\ draft_reply w email (JStr t) cfg ctx n = (Raise e, n).
Proof.
  intros Hb Hv. cbv zeta.
  unfold categorize_email, extract_actions, draft_reply, prompt_for. munfold.
  cbn [concat_lit]. rewrite Hb.
  destruct v; try (repeat split; reflexivity).
  exfalso. eapply Hv. reflexivity.
Qed.

Lemma interpreters_reject_body_witness :
  let e := type_error (lit "can only concatenate str (not " ++ [34%N]
                       ++ lit "NoneType" ++ [34%N] ++ lit ") to str") in
  categorize_email Examples.failing_world Examples.broken (JStr (lit "Categorize."))
    Examples.cfg0 2 = (Raise e, 2)
  /\ extract_actions Examples.failing_world Examples.broken (JStr (lit "Categorize."))
       Examples.cfg0 2 = (Raise e, 2)
  /\ draft_reply Examples.failing_world Examples.broken (JStr (lit "Categorize."))
       Examples.cfg0 (Some (lit "context")) 2 = (Raise e, 2).
Proof.
  apply (interpreters_reject_body Examples.failing_world Examples.broken
           (lit "Categorize.") Examples.cfg0 (Some (lit "context")) 2 JNull).
  - reflexivity.
  - intros s. discriminate.
Defined.

(** ** More on the ingestion pipeline *)

Lemma prompt_for_ok (template : json) (label : pystr) (email : dict) (p : pystr) :
  prompt_for template label email = Ok p ->
  exists t body, template = JStr t /\ email_body email = JStr body.
Proof.
  unfold prompt_for.
  destruct template; cbn [concat_lit]; try discriminate.
  destruct (email_body email); cbn [concat_val]; try discriminate.
  eauto.
Qed.

(** The interpreters of the pipeline return exactly on the processable
    inputs, whatever the gateway does. *)
Lemma interpret_email_ok_iff (w : World) (prompts : dict) (cfg : GenConfig)
    (email : dict) (k : nat) :
  (exists c a k', interpret_email w prompts cfg email k = (Ok (c, a), k'))
  <-> processable prompts email.
Proof.
  unfold processable, interpret_email, categorize_email, extract_actions. munfold.
  destruct (template_of prompts (lit "categorize")) as [cp|e1].
  2: { split; [intros (? & ? & ? & [=]) | intros (? & ? & ? & [=] & _)]. }
  destruct (template_of prompts (lit "extract_actions")) as [ap|e1].
  2: { split; [intros (? & ? & ? & [=]) | intros (? & ? & ? & _ & [=] & _)]. }
  split.
  - destruct (prompt_for cp EMAIL_LABEL_CAT email) as [p1|e1] eqn:E1;
      [|intros (? & ? & ? & [=])].
    destruct (call_llm_total w p1 cfg k) as (o1 & k1 & ->).
    destruct (prompt_for ap EMAIL_LABEL email) as [p2|e1] eqn:E2;
      [|intros (? & ? & ? & [=])].
    intros _.
    destruct (prompt_for_ok _ _ _ _ E1) as (tc & body & -> & Hb).
    destruct (prompt_for_ok _ _ _ _ E2) as (ta & _ & -> & _).
    exists tc, ta, body. repeat split. exact Hb.
  - intros (tc & ta & body & [= ->] & [= ->] & Hb).
    rewrite !(prompt_for_str _ _ body email Hb).
    destruct (call_llm_total w (tc ++ EMAIL_LABEL_CAT ++ body) cfg k) as (o1 & k1 & ->).
    destruct (call_llm_total w (ta ++ EMAIL_LABEL ++ body) cfg k1) as (o2 & k2 & ->).
    eauto.
Qed.

(** X7. Which emails end with an error record is decided by the prompts
    mapping and the email alone: the record at an index is a success
    record exactly when both templates are present strings and the body is
    a string or absent, and an error record otherwise.  What the gateway
    answers, or whether it fails, plays no part. *)
Theorem run_ingestion_pipeline_errors (w : World) (inbox : list dict)
    (prompts : dict) (cfg : GenConfig) (calls : nat) :
  exists (inbox' results : list dict) (calls' : nat),
    run_ingestion_pipeline w inbox prompts cfg calls = (Ok (inbox', results), calls')
    /\ (forall i email,
          inbox !! i = Some email ->
          (processable prompts email <->
             exists c a, results !! i = Some (success_record i c a))
          /\ (~ processable prompts email <->
                exists msg, results !! i = Some (error_record i msg))).
Proof.
  destruct (run_ingestion_pipeline_spec w inbox prompts cfg calls)
    as (inbox' & results & calls' & Hrun & Hlen & Hres & Hturn).
  exists inbox', results, calls'. split; [exact Hrun|].
  intros i email Hi.
  destruct (Hturn i email Hi) as (rec & email' & k & k' & Hr & _ & Ht).
  rewrite Hr.
  destruct Ht as [c a k2 Hok|e k2 Herr].
  - assert (processable prompts email) as Hp
      by (apply (interpret_email_ok_iff w prompts cfg email k); eauto).
    split; split.
    + intros _. eauto.
    + intros _. exact Hp.
    + intros Hn. contradiction.
    + intros (msg & [=]).
  - assert (~ processable prompts email) as Hp.
    { intros Hp. apply (interpret_email_ok_iff w prompts cfg email k) in Hp.
      destruct Hp as (c & a & k3 & Hok). rewrite Hok in Herr. discriminate Herr. }
    split; split.
    + intros H. contradiction.
    + intros (c & a & [=]).
    + intros _. eauto.
    + intros _. exact Hp.
Qed.

Lemma call_llm_calls (w : World) (p : pystr) (cfg : GenConfig) (n : nat)
    (r : result pystr) (n' : nat) :
  call_llm w p cfg n = (r, n') ->
  n' = if no_credential w then n else S n.
Proof.
  unfold call_llm, live_call. destruct (no_credential w); munfold.
  - intros [= _ <-]. reflexivity.
  - destruct (sdk w n p cfg) as [e|resp]; [intros [= _ <-]; reflexivity|].
    destruct (resp_text resp) as [|e|[|c t]];
      try (intros [= _ <-]; reflexivity);
      (destruct (resp_candidates resp) as [|e|[|cand cs]];
       try (intros [= _ <-]; reflexivity);
       destruct (cand_text cand); intros [= _ <-]; reflexivity).
Qed.

Lemma interpret_email_calls (w : World) (prompts : dict) (cfg : GenConfig)
    (email : dict) (k : nat) (r : result (json * json)) (k' : nat) :
  interpret_email w prompts cfg email k = (r, k') ->
  k <= k' <= k + 2
  /\ (no_credential w = true -> k' = k)
  /\ (no_credential w = false -> processable prompts email -> k' = k + 2).
Proof.
  unfold interpret_email, categorize_email, extract_actions, processable. munfold.
  destruct (template_of prompts (lit "categorize")) as [cp|e1].
  2: { intros [= _ <-]. repeat split; try lia. intros _ (? & ? & ? & [=] & _). }
  destruct (template_of prompts (lit "extract_actions")) as [ap|e1].
  2: { intros [= _ <-]. repeat split; try lia. intros _ (? & ? & ? & _ & [=] & _). }
  destruct (prompt_for cp EMAIL_LABEL_CAT email) as [p1|e1] eqn:E1.
  2: { intros [= _ <-]. repeat split; try lia.
       intros _ (tc & ta & body & [= ->] & _ & Hb).
       rewrite (prompt_for_str _ _ body email Hb) in E1. discriminate E1. }
  destruct (call_llm_total w p1 cfg k) as (o1 & k1 & C1). rewrite C1.
  apply call_llm_calls in C1.
  destruct (prompt_for ap EMAIL_LABEL email) as [p2|e1] eqn:E2.
  2: { intros [= _ <-]. subst k1.
       destruct (no_credential w); repeat split; try lia; try discriminate.
       intros _ (tc & ta & body & _ & [= ->] & Hb).
       rewrite (prompt_for_str _ _ body email Hb) in E2. discriminate E2. }
  destruct (call_llm_total w p2 cfg k1) as (o2 & k2 & C2). rewrite C2.
  apply call_llm_calls in C2.
  intros [= _ <-]. subst k1 k2.
  destruct (no_credential w); repeat split; try lia; discriminate.
Qed.

Lemma ingest_loop_calls (w : World) (prompts : dict) (cfg : GenConfig) (fuel : nat) :
  forall (idx : nat) (st : PipeState) (r : result unit) (st' : PipeState),
    ingest_loop w prompts cfg fuel idx st = (r, st') ->
    let turns := Nat.min fuel (length (st_inbox st) - idx) in
    st_calls st <= st_calls st' <= st_calls st + 2 * turns
    /\ (no_credential w = true -> st_calls st' = st_calls st)
    /\ (no_credential w = false ->
        (forall j email,
            idx <= j -> st_inbox st !! j = Some email -> processable prompts email) ->
        st_calls st' = st_calls st + 2 * turns).
Proof.
  induction fuel as [|fuel IH]; intros idx st r st'.
  - cbn [ingest_loop]. munfold. intros [= _ <-]. cbn. repeat split; lia.
  - rewrite ingest_loop_step.
    destruct (st_inbox st !! idx) as [email|] eqn:Hidx.
    + pose proof (lookup_lt_Some _ _ _ Hidx) as Hlt.
      rewrite (process_email_eq w prompts cfg idx email st Hidx).
      destruct (interpret_email w prompts cfg email (st_calls st))
        as [res k'] eqn:Hi.
      destruct (interpret_email_calls _ _ _ _ _ _ _ Hi) as (Hb & Hm & Hl).
      assert (forall st1,
                 st_calls st1 = k' ->
                 length (st_inbox st1) = length (st_inbox st) ->
                 (forall j, S idx <= j -> st_inbox st1 !! j = st_inbox st !! j) ->
                 ingest_loop w prompts cfg fuel (S idx) st1 = (r, st') ->
                 let turns := Nat.min (S fuel) (length (st_inbox st) - idx) in
                 st_calls st <= st_calls st' <= st_calls st + 2 * turns
                 /\ (no_credential w = true -> st_calls st' = st_calls st)
                 /\ (no_credential w = false ->
                     (forall j email0,
                         idx <= j -> st_inbox st !! j = Some email0 ->
                         processable prompts email0) ->
                     st_calls st' = st_calls st + 2 * turns)) as Hstep.
      { intros st1 Hc Hlen Hsame Hrun. cbv zeta.
        destruct (IH (S idx) st1 r st' Hrun) as (Hb1 & Hm1 & Hl1).
        cbv zeta in Hb1, Hl1. rewrite Hc, Hlen in *.
        split; [lia|]. split.
        - intros Hw. rewrite (Hm1 Hw). apply Hm. exact Hw.
        - intros Hw Hall. rewrite Hl1.
          + rewrite (Hl Hw (Hall idx email (le_n _) Hidx)). lia.
          + exact Hw.
          + intros j email0 Hj Hj0. apply (Hall j email0); [lia|].
            rewrite <- Hsame by lia. exact Hj0. }
      destruct res as [[c a]|e]; apply Hstep; cbn [st_calls st_inbox];
        try reflexivity.
      * apply length_insert.
      * intros j Hj. apply list_lookup_insert_ne. lia.
    + intros [= _ <-]. apply lookup_ge_None in Hidx. cbv zeta.
      replace (length (st_inbox st) - idx) with 0 by lia.
      rewrite Nat.min_0_r. repeat split; lia.
Qed.

(** X8. A run makes at most two gateway calls per email and none at all
    without a credential; with a credential and an inbox and prompts
    mapping that are processable throughout it makes exactly two per
    email. *)
Theorem run_ingestion_pipeline_calls (w : World) (inbox : list dict)
    (prompts : dict) (cfg : GenConfig) (calls : nat) :
  exists (inbox' results : list dict) (calls' : nat),
    run_ingestion_pipeline w inbox prompts cfg calls = (Ok (inbox', results), calls')
    /\ calls <= calls' <= calls + 2 * length inbox
    /\ (no_credential w = true -> calls' = calls)
    /\ (no_credential w = false /\ Forall (processable prompts) inbox ->
        calls' = calls + 2 * length inbox).
Proof.
  destruct (run_ingestion_pipeline_spec w inbox prompts cfg calls)
    as (inbox' & results & calls' & Hrun & _).
  exists inbox', results, calls'. split; [exact Hrun|].
  unfold run_ingestion_pipeline in Hrun.
  destruct (ingest_loop w prompts cfg (length inbox) 0
              {| st_inbox := inbox; st_results := []; st_calls := calls |})
    as [r st'] eqn:Hloop.
  destruct (ingest_loop_calls _ _ _ _ _ _ _ _ Hloop) as (Hb & Hm & Hl).
  cbv zeta in Hb, Hl. cbn [st_inbox st_calls] in *.
  rewrite Nat.sub_0_r, Nat.min_id in *.
  assert (st_calls st' = calls') as <-
    by (destruct r; [injection Hrun as _ _ H; exact H | discriminate Hrun]).
  split; [exact Hb|]. split; [exact Hm|].
  intros [Hw Hall]. apply (Hl Hw). intros j email _ Hj.
  rewrite List.Forall_forall in Hall. apply Hall.
  apply list_elem_of_In. eapply list_elem_of_lookup_2. exact Hj.
Qed.

Lemma run_ingestion_pipeline_calls_witness :
  exists (inbox' results : list dict) (calls' : nat),
    run_ingestion_pipeline (Examples.text_world Examples.fenced_output)
      [Examples.alice; Examples.carol] Examples.prompts_ok Examples.cfg0 10
    = (Ok (inbox', results), calls')
    /\ calls' = 14.
Proof.
  destruct (run_ingestion_pipeline_calls (Examples.text_world Examples.fenced_output)
              [Examples.alice; Examples.carol] Examples.prompts_ok Examples.cfg0 10)
    as (inbox' & results & calls' & Hrun & _ & _ & Hlive).
  exists inbox', results, calls'. split; [exact Hrun|].
  apply Hlive. split; [reflexivity|].
  repeat constructor; eexists _, _, _; repeat split; reflexivity.
Defined.

(** ** More on the thread context and the reply draft *)

Lemma join_app (sep : pystr) (xs ys : list pystr) :
  xs <> [] -> ys <> [] ->
  join sep (xs ++ ys) = join sep xs ++ sep ++ join sep ys.
Proof.
  intros Hx Hy. induction xs as [|x xs IH]; [contradiction|].
  destruct xs as [|x' xs'].
  - cbn [app]. destruct ys as [|y ys']; [contradiction|]. reflexivity.
  - change (join sep ((x :: x' :: xs') ++ ys))
      with (x ++ sep ++ join sep ((x' :: xs') ++ ys)).
    rewrite IH by discriminate.
    change (join sep (x :: x' :: xs')) with (x ++ sep ++ join sep (x' :: xs')).
    rewrite <- !app_assoc. reflexivity.
Qed.

Section ThreadContextMore.

Variable repr_str : pystr -> pystr.
Variable repr_float : pystr -> pystr.

Local Abbreviation block := (thread_block repr_str repr_float).
Local Abbreviation collect := (collect_thread_context repr_str repr_float).

Lemma collect_not_empty (inbox : list dict) (thread_id : option pystr) (ctx : pystr) :
  collect inbox thread_id = Some ctx -> ctx <> [].
Proof.
  destruct thread_id as [[|c tid]|]; try discriminate.
  rewrite collect_some.
  destruct (List.filter (in_thread (c :: tid)) inbox) as [|m ms]; [discriminate|].
  cbn [map]. intros H.
  assert (ctx = join NL (block m :: map block ms)) as -> by congruence.
  apply join_cons_nonempty. apply thread_block_nonempty.
Qed.

(** X9. The context of an inbox made of two parts is made of the contexts
    of the parts: absent when both are, the one that is present when only
    one is, and otherwise the first, a line feed and the second.  Messages
    appended to the inbox therefore only extend the context. *)
Theorem collect_thread_context_app (inbox1 inbox2 : list dict)
    (thread_id : option pystr) :
  collect (inbox1 ++ inbox2) thread_id =
  match collect inbox1 thread_id, collect inbox2 thread_id with
  | Some a, Some b => Some (a ++ NL ++ b)
  | Some a, None => Some a
  | None, Some b => Some b
  | None, None => None
  end.
Proof.
  destruct thread_id as [[|c tid]|]; try reflexivity.
  rewrite !collect_some, List.filter_app, List.map_app.
  destruct (map block (List.filter (in_thread (c :: tid)) inbox1)) as [|b1 bs1];
    destruct (map block (List.filter (in_thread (c :: tid)) inbox2)) as [|b2 bs2];
    try reflexivity.
  - rewrite app_nil_r. reflexivity.
  - cbn [app]. f_equal.
    apply (join_app NL (b1 :: bs1) (b2 :: bs2)); discriminate.
Qed.

(** X10. Drafting a reply with the context collected for a thread: the
    prompt sent to the gateway is the template, the email section and,
    exactly when some message of the inbox is in the thread, the thread
    context section; an absent context adds nothing, and the collector
    never returns the empty context that the draft would silently drop.
    The draft is the gateway answer without surrounding white space. *)
Theorem draft_reply_with_thread (w : World) (inbox : list dict)
    (thread_id : option pystr) (email : dict) (t body : pystr)
    (cfg : GenConfig) (n : nat) :
  email_body email = JStr body ->
  let context := collect inbox thread_id in
  let prompt :=
    t ++ EMAIL_LABEL ++ body
    ++ match context with
       | Some ctx => NL ++ NL ++ lit "THREAD CONTEXT:" ++ NL ++ ctx
       | None => []
       end in
  exists out n',
    call_llm w prompt cfg n = (Ok out, n')
    /\ draft_reply w email (JStr t) cfg context n = (Ok (strip out), n')
    /\ trimmed isspace (strip out).
Proof.
  intros Hb. cbv zeta.
  unfold draft_reply. munfold. rewrite (prompt_for_str t _ body email Hb).
  destruct (collect inbox thread_id) as [ctx|] eqn:Hctx.
  - apply collect_not_empty in Hctx.
    destruct ctx as [|c ctx]; [contradiction|].
    rewrite <- !app_assoc.
    destruct (call_llm_total w
                (t ++ EMAIL_LABEL ++ body ++ NL ++ NL ++ lit "THREAD CONTEXT:"
                 ++ NL ++ c :: ctx) cfg n) as (out & n' & Hc).
    exists out, n'. rewrite Hc.
    split; [reflexivity|]. split; [reflexivity|]. apply strip_trimmed.
  - rewrite app_nil_r.
    destruct (call_llm_total w (t ++ EMAIL_LABEL ++ body) cfg n) as (out & n' & Hc).
    exists out, n'. rewrite Hc.
    split; [reflexivity|]. split; [reflexivity|]. apply strip_trimmed.
Qed.

End ThreadContextMore.

(** A reply to the first sample email, which is in thread [t1] with the
    third: the live gateway is asked with the thread context in the prompt
    and its answer comes back stripped. *)
Lemma draft_reply_with_thread_witness :
  exists out n',
    call_llm (Examples.text_world (lit "  Dear Alice, approved. " ++ NL))
      (lit "Draft a polite, concise reply." ++ EMAIL_LABEL
       ++ lit "Hi," ++ NL ++ lit "Can you approve the Q2 marketing budget?"
       ++ NL ++ NL ++ lit "THREAD CONTEXT:" ++ NL
       ++ thread_block id id Examples.alice ++ NL
       ++ thread_block id id Examples.carol)
      Examples.cfg0 0 = (Ok out, n')
    /\ draft_reply (Examples.text_world (lit "  Dear Alice, approved. " ++ NL))
         Examples.alice (JStr (lit "Draft a polite, concise reply.")) Examples.cfg0
         (collect_thread_context id id Examples.inbox3 (Some (lit "t1"))) 0
       = (Ok (lit "Dear Alice, approved."), 1).
Proof.
  destruct (draft_reply_with_thread id id
              (Examples.text_world (lit "  Dear Alice, approved. " ++ NL))
              Examples.inbox3 (Some (lit "t1")) Examples.alice
              (lit "Draft a polite, concise reply.")
              (lit "Hi," ++ NL ++ lit "Can you approve the Q2 marketing budget?")
              Examples.cfg0 0 eq_refl) as (out & n' & Hc & Hd & _).
  exists out, n'. split; [exact Hc|].
  rewrite Hd. vm_compute in Hc. injection Hc as <- <-. vm_compute. reflexivity.
Defined.

(** ** Writing a value and reading it back *)

Module JsonRoundTrip.
Import JsonDecoder JsonEncoder.

Lemma scan_once_eq (f : nat) (s : pystr) :
  scan_once (S f) s =
  match s with
  | [] => NoParse
  | c :: t =>
      if (c =? 34)%N then
        match scan_string t with
        | Scanned str r => Scanned (JStr str) r
        | NoParse => NoParse
        | OutOfFuel => OutOfFuel
        end
      else if (c =? 123)%N then
        match skip_ws t with
        | d :: r =>
            if (d =? 125)%N then Scanned (JObj []) r
            else if (d =? 34)%N then object_items f r []
            else NoParse
        | [] => NoParse
        end
      else if (c =? 91)%N then
        match skip_ws t with
        | d :: r =>
            if (d =? 93)%N then Scanned (JArr []) r
            else array_items f (d :: r) []
        | [] => NoParse
        end
      else of_option (scan_scalar s)
  end.
Proof. reflexivity. Qed.

Lemma array_items_eq (f : nat) (s : pystr) (acc : list json) :
  array_items (S f) s acc =
  match scan_once f s with
  | Scanned v r =>
      match skip_ws r with
      | c :: r' =>
          if (c =? 93)%N then Scanned (JArr (rev (v :: acc))) r'
          else if (c =? 44)%N then array_items f (skip_ws r') (v :: acc)
          else NoParse
      | [] => NoParse
      end
  | NoParse => NoParse
  | OutOfFuel => OutOfFuel
  end.
Proof. reflexivity. Qed.

Lemma object_items_eq (f : nat) (s : pystr) (acc : dict) :
  object_items (S f) s acc =
  match scan_string s with
  | Scanned key r =>
      match skip_ws r with
      | c :: r1 =>
          if (c =? 58)%N then
            match scan_once f (skip_ws r1) with
            | Scanned v r2 =>
                match skip_ws r2 with
                | d :: r3 =>
                    if (d =? 125)%N then Scanned (JObj (dict_set key v acc)) r3
                    else if (d =? 44)%N then
                      match skip_ws r3 with
                      | q :: r4 =>
                          if (q =? 34)%N
                          then object_items f r4 (dict_set key v acc)
                          else NoParse
                      | [] => NoParse
                      end
                    else NoParse
                | [] => NoParse
                end
            | NoParse => NoParse
            | OutOfFuel => OutOfFuel
            end
          else NoParse
      | [] => NoParse
      end
  | NoParse => NoParse
  | OutOfFuel => OutOfFuel
  end.
Proof. reflexivity. Qed.

(** More fuel does not change an outcome that was reached with less. *)
Lemma scan_more_fuel (f : nat) :
  (forall s, scan_once f s <> OutOfFuel -> scan_once (S f) s = scan_once f s)
  /\ (forall s acc,
        array_items f s acc <> OutOfFuel ->
        array_items (S f) s acc = array_items f s acc)
  /\ (forall s acc,
        object_items f s acc <> OutOfFuel ->
        object_items (S f) s acc = object_items f s acc).
Proof.
  induction f as [|f (IHo & IHa & IHobj)].
  - repeat split; intros; exfalso; auto.
  - split; [|split].
    + intros s. rewrite (scan_once_eq (S f)), (scan_once_eq f).
      destruct s as [|c t]; [reflexivity|].
      destruct (c =? 34)%N; [reflexivity|].
      destruct (c =? 123)%N.
      { destruct (skip_ws t) as [|d r]; [reflexivity|].
        destruct (d =? 125)%N; [reflexivity|].
        destruct (d =? 34)%N; [|reflexivity]. apply IHobj. }
      destruct (c =? 91)%N; [|reflexivity].
      destruct (skip_ws t) as [|d r]; [reflexivity|].
      destruct (d =? 93)%N; [reflexivity|]. apply IHa.
    + intros s acc. rewrite (array_items_eq (S f)), (array_items_eq f).
      destruct (scan_once f s) as [v r| |] eqn:E.
      * rewrite (IHo s) by (rewrite E; discriminate). rewrite E.
        destruct (skip_ws r) as [|c r']; [reflexivity|].
        destruct (c =? 93)%N; [reflexivity|].
        destruct (c =? 44)%N; [|reflexivity]. apply IHa.
      * rewrite (IHo s) by (rewrite E; discriminate). rewrite E. reflexivity.
      * intros H. exfalso. apply H. reflexivity.
    + intros s acc. rewrite (object_items_eq (S f)), (object_items_eq f).
      destruct (scan_string s) as [key r| |]; try reflexivity.
      destruct (skip_ws r) as [|c r1]; [reflexivity|].
      destruct (c =? 58)%N; [|reflexivity].
      destruct (scan_once f (skip_ws r1)) as [v r2| |] eqn:E.
      * rewrite (IHo (skip_ws r1)) by (rewrite E; discriminate). rewrite E.
        destruct (skip_ws r2) as [|d r3]; [reflexivity|].
        destruct (d =? 125)%N; [reflexivity|].
        destruct (d =? 44)%N; [|reflexivity].
        destruct (skip_ws r3) as [|q r4]; [reflexivity|].
        destruct (q =? 34)%N; [|reflexivity]. apply IHobj.
      * rewrite (IHo (skip_ws r1)) by (rewrite E; discriminate). rewrite E.
        reflexivity.
      * intros H. exfalso. apply H. reflexivity.
Qed.

Lemma scan_once_more (f g : nat) (s : pystr) (v : json) (r : pystr) :
  scan_once f s = Scanned v r -> f <= g -> scan_once g s = Scanned v r.
Proof.
  intros H Hle. induction Hle as [|g Hle IH]; [exact H|].
  rewrite (proj1 (scan_more_fuel g)); [exact IH|]. rewrite IH. discriminate.
Qed.

Lemma array_items_more (f g : nat) (s : pystr) (acc : list json) (v : json)
    (r : pystr) :
  array_items f s acc = Scanned v r -> f <= g -> array_items g s acc = Scanned v r.
Proof.
  intros H Hle. induction Hle as [|g Hle IH]; [exact H|].
  rewrite (proj1 (proj2 (scan_more_fuel g))); [exact IH|]. rewrite IH. discriminate.
Qed.

Lemma object_items_more (f g : nat) (s : pystr) (acc : dict) (v : json)
    (r : pystr) :
  object_items f s acc = Scanned v r -> f <= g -> object_items g s acc = Scanned v r.
Proof.
  intros H Hle. induction Hle as [|g Hle IH]; [exact H|].
  rewrite (proj2 (proj2 (scan_more_fuel g))); [exact IH|]. rewrite IH. discriminate.
Qed.

(** What is scanned with some fuel is what [loads] scans. *)
Lemma scan_once_any_fuel (f g : nat) (s : pystr) (v : json) (r : pystr) :
  scan_once f s = Scanned v r -> scan_once g s <> OutOfFuel ->
  scan_once g s = Scanned v r.
Proof.
  intros H Hg. destruct (Nat.le_ge_cases f g) as [Hle|Hge].
  - eapply scan_once_more; eassumption.
  - destruct (scan_once g s) as [v' r'| |] eqn:E; [| |contradiction].
    + rewrite (scan_once_more g f s v' r' E Hge) in H. exact H.
    + assert (scan_once f s = NoParse) as H'.
      { clear H. induction Hge as [|m Hge IH]; [exact E|].
        rewrite (proj1 (scan_more_fuel m)); [exact IH|]. rewrite IH. discriminate. }
      rewrite H' in H. discriminate H.
Qed.

(** *** Integers *)

Lemma uint_chars_digits (d : Decimal.uint) : forallb is_digit (uint_chars d) = true.
Proof. induction d; [reflexivity| exact IHd ..]. Qed.

Lemma span_digits_app (ds rest : pystr) :
  forallb is_digit ds = true -> number_end rest = true ->
  span_digits (ds ++ rest) = (ds, rest).
Proof.
  intros Hds Hend. induction ds as [|c ds IH]; cbn [app].
  - destruct rest as [|c r]; [reflexivity|]. cbn [span_digits].
    cbn [number_end] in Hend. destruct (is_digit c); [discriminate Hend|reflexivity].
  - cbn [forallb] in Hds. apply andb_true_iff in Hds. destruct Hds as [Hc Hds].
    cbn [span_digits]. rewrite Hc, (IH Hds). reflexivity.
Qed.

Lemma uint_chars_cons (d : Decimal.uint) :
  uint_chars d =
  match d with
  | Decimal.Nil => []
  | Decimal.D0 l => 48%N :: uint_chars l
  | Decimal.D1 l => 49%N :: uint_chars l
  | Decimal.D2 l => 50%N :: uint_chars l
  | Decimal.D3 l => 51%N :: uint_chars l
  | Decimal.D4 l => 52%N :: uint_chars l
  | Decimal.D5 l => 53%N :: uint_chars l
  | Decimal.D6 l => 54%N :: uint_chars l
  | Decimal.D7 l => 55%N :: uint_chars l
  | Decimal.D8 l => 56%N :: uint_chars l
  | Decimal.D9 l => 57%N :: uint_chars l
  end.
Proof. destruct d; reflexivity. Qed.

Lemma fold_digits_acc (d : Decimal.uint) (p : positive) :
  fold_left digit_step (uint_chars d) (Zpos p) = Zpos (Pos.of_uint_acc d p).
Proof.
  revert p. induction d; intros p; [reflexivity|..];
    rewrite uint_chars_cons; cbn [fold_left Pos.of_uint_acc];
    rewrite <- IHd; f_equal; unfold digit_step, digit_val; cbn; lia.
Qed.

Lemma fold_digits (d : Decimal.uint) :
  fold_left digit_step (uint_chars d) 0%Z = Z.of_N (Pos.of_uint d).
Proof.
  induction d; [reflexivity|..];
    rewrite uint_chars_cons; cbn [fold_left Pos.of_uint Z.of_N];
    [exact IHd | rewrite <- fold_digits_acc; reflexivity ..].
Qed.

(** The decimal digits of a positive number: at least one, the first not
    a zero. *)
Lemma to_uint_head (p : positive) :
  exists c t,
    uint_chars (Pos.to_uint p) = c :: t
    /\ is_digit c = true /\ c <> 48%N /\ c <> 45%N.
Proof.
  assert (forall d', Pos.to_uint p <> Decimal.D0 d') as Hnz.
  { intros d' E.
    pose proof (DecimalPos.Unsigned.to_of (Pos.to_uint p)) as Hn.
    rewrite DecimalPos.Unsigned.of_to in Hn. cbn [N.to_uint] in Hn.
    assert (Decimal.nzhead (Pos.to_uint p) <> Decimal.Nil) as Hh.
    { intros Hh. apply DecimalFacts.unorm_0 in Hh. rewrite Hh in Hn.
      apply (DecimalPos.Unsigned.to_uint_nonzero p). exact Hn. }
    apply (DecimalFacts.nzhead_nonzero (Pos.to_uint p) d').
    rewrite <- (DecimalFacts.unorm_nzhead _ Hh), <- Hn. exact E. }
  pose proof (DecimalPos.Unsigned.to_uint_nonnil p) as Hnil.
  pose proof (uint_chars_digits (Pos.to_uint p)) as Hd.
  rewrite uint_chars_cons in Hd |- *.
  destruct (Pos.to_uint p) as [|d|d|d|d|d|d|d|d|d|d];
    [contradiction | exfalso; eapply Hnz; reflexivity | ..];
    eexists _, _; (split; [reflexivity|]); repeat split; discriminate.
Qed.

Lemma number_end_tail (rest : pystr) :
  number_end rest = true -> scan_frac rest = None /\ scan_exp rest = None.
Proof.
  destruct rest as [|c r]; [split; reflexivity|]. cbn [number_end scan_frac scan_exp].
  intros H. apply andb_true_iff in H. destruct H as [H He].
  apply andb_true_iff in H. destruct H as [_ Hd].
  apply negb_true_iff in Hd, He. rewrite Hd, He. split; reflexivity.
Qed.

Lemma str_of_int_pos (p : positive) : str_of_int (Zpos p) = uint_chars (Pos.to_uint p).
Proof.
  unfold str_of_int, uint_chars. cbn [Z.to_int NilZero.string_of_int].
  pose proof (DecimalPos.Unsigned.to_uint_nonnil p) as Hnil.
  unfold NilZero.string_of_uint. destruct (Pos.to_uint p); [contradiction|reflexivity ..].
Qed.

Lemma str_of_int_neg (p : positive) :
  str_of_int (Zneg p) = 45%N :: uint_chars (Pos.to_uint p).
Proof.
  unfold str_of_int, uint_chars. cbn [Z.to_int NilZero.string_of_int].
  pose proof (DecimalPos.Unsigned.to_uint_nonnil p) as Hnil.
  unfold NilZero.string_of_uint. destruct (Pos.to_uint p); [contradiction|reflexivity ..].
Qed.

Lemma fold_digits_pos (p : positive) :
  fold_left digit_step (uint_chars (Pos.to_uint p)) 0%Z = Zpos p.
Proof. rewrite fold_digits, DecimalPos.Unsigned.of_to. reflexivity. Qed.

(** An integer is read back from its decimal digits. *)
Lemma scan_number_int (z : Z) (rest : pystr) :
  number_end rest = true ->
  scan_number (str_of_int z ++ rest) = Some (JInt z, rest).
Proof.
  intros Hend. destruct (number_end_tail rest Hend) as [Hf He].
  unfold scan_number. destruct z as [|p|p].
  - change (str_of_int 0) with [48%N]. cbn [app]. unfold scan_int. cbn [N.eqb Pos.eqb app].
    rewrite Hf, He. reflexivity.
  - rewrite str_of_int_pos.
    destruct (to_uint_head p) as (c & t & E & Hd & H0 & Hm).
    pose proof (uint_chars_digits (Pos.to_uint p)) as Hds.
    pose proof (fold_digits_pos p) as Hv.
    rewrite E in *. cbn [app]. unfold scan_int.
    apply N.eqb_neq in H0, Hm. rewrite Hm, H0, Hd.
    change (c :: t ++ rest) with ((c :: t) ++ rest).
    rewrite (span_digits_app _ _ Hds Hend). cbn [app]. rewrite Hf, He.
    unfold int_of_lexeme. rewrite Hm. 
    change (fun acc c0 => (10 * acc + digit_val c0)%Z) with digit_step.
    rewrite Hv. reflexivity.
  - rewrite str_of_int_neg.
    destruct (to_uint_head p) as (c & t & E & Hd & H0 & Hm).
    pose proof (uint_chars_digits (Pos.to_uint p)) as Hds.
    pose proof (fold_digits_pos p) as Hv.
    rewrite E in *. cbn [app]. unfold scan_int. cbn [N.eqb Pos.eqb].
    apply N.eqb_neq in H0. rewrite H0, Hd.
    change (c :: t ++ rest) with ((c :: t) ++ rest).
    rewrite (span_digits_app _ _ Hds Hend). cbn [app]. rewrite Hf, He.
    unfold int_of_lexeme. cbn [N.eqb Pos.eqb].
    change (fun acc c0 => (10 * acc + digit_val c0)%Z) with digit_step.
    rewrite Hv. reflexivity.
Qed.

(** *** Strings *)

Lemma hex_digit_val (n : N) : (n < 16)%N -> hex_val (hex_digit n) = Some n.
Proof.
  intros Hn. unfold hex_digit, hex_val, in_range.
  destruct (N.ltb_spec n 10%N) as [H|H].
  - replace ((48 <=? 48 + n)%N) with true by (symmetry; apply N.leb_le; lia).
    replace ((48 + n <=? 57)%N) with true by (symmetry; apply N.leb_le; lia).
    cbn [andb]. f_equal. lia.
  - replace ((87 + n <=? 57)%N) with false by (symmetry; apply N.leb_gt; lia).
    rewrite andb_false_r.
    replace ((97 <=? 87 + n)%N) with true by (symmetry; apply N.leb_le; lia).
    replace ((87 + n <=? 102)%N) with true by (symmetry; apply N.leb_le; lia).
    cbn [andb]. f_equal. lia.
Qed.

(** One character, written by the encoder, is read back by one step of
    the string scanner. *)
Lemma scanstring_encode_char (f : nat) (c : char) (rest acc : pystr) :
  scanstring (S f) (encode_char c ++ rest) acc = scanstring f rest (c :: acc).
Proof.
  unfold encode_char.
  destruct (N.eqb_spec c 34) as [->|H34]; [reflexivity|].
  destruct (N.eqb_spec c 92) as [->|H92]; [reflexivity|].
  destruct (N.eqb_spec c 10) as [->|H10]; [reflexivity|].
  destruct (N.eqb_spec c 13) as [->|H13]; [reflexivity|].
  destruct (N.eqb_spec c 9) as [->|H9]; [reflexivity|].
  destruct (N.eqb_spec c 8) as [->|H8]; [reflexivity|].
  destruct (N.eqb_spec c 12) as [->|H12]; [reflexivity|].
  destruct (N.ltb_spec c 32) as [Hlt|Hge].
  - cbn [app scanstring N.eqb Pos.eqb].
    assert (hex4 48%N 48%N (hex_digit (c / 16)) (hex_digit (c mod 16)) = Some c) as ->.
    { unfold hex4. change (hex_val 48%N) with (Some 0%N).
      rewrite (hex_digit_val (c / 16)), (hex_digit_val (c mod 16)).
      - f_equal. pose proof (N.div_mod c 16). lia.
      - apply N.mod_lt. discriminate.
      - apply N.Div0.div_lt_upper_bound. lia. }
    replace (in_range 55296%N 56319%N c) with false; [reflexivity|].
    unfold in_range. symmetry. apply andb_false_iff. left. apply N.leb_gt. lia.
  - cbn [app scanstring].
    apply N.eqb_neq in H34, H92. rewrite H34, H92.
    replace ((c <? 32)%N) with false by (symmetry; apply N.ltb_ge; exact Hge).
    reflexivity.
Qed.

Lemma scanstring_encoded (s : pystr) :
  forall (f : nat) (rest acc : pystr),
    length s < f ->
    scanstring f (flat_map encode_char s ++ 34%N :: rest) acc
    = Scanned (rev acc ++ s) rest.
Proof.
  induction s as [|c s IH]; intros f rest acc Hf.
  - destruct f as [|f]; [inversion Hf|]. cbn. rewrite app_nil_r. reflexivity.
  - destruct f as [|f]; [inversion Hf|]. cbn [flat_map].
    rewrite <- app_assoc, scanstring_encode_char, IH by (cbn [length] in Hf; lia).
    cbn [rev]. rewrite <- app_assoc. reflexivity.
Qed.

Lemma encode_char_length (c : char) : 1 <= length (encode_char c).
Proof.
  unfold encode_char.
  repeat match goal with |- context [if ?b then _ else _] => destruct b end;
    cbn [length]; lia.
Qed.

Lemma flat_map_encode_length (s : pystr) :
  length s <= length (flat_map encode_char s).
Proof.
  induction s as [|c s IH]; [reflexivity|]. cbn [flat_map length].
  rewrite length_app. pose proof (encode_char_length c). lia.
Qed.

(** A string is read back from its JSON text. *)
Lemma scan_string_encoded (s rest : pystr) :
  scan_string (flat_map encode_char s ++ 34%N :: rest) = Scanned s rest.
Proof.
  unfold scan_string. rewrite scanstring_encoded; [reflexivity|].
  rewrite length_app. pose proof (flat_map_encode_length s). lia.
Qed.

(** *** Values *)

Lemma distinct_app_fresh (ks1 : list pystr) (k : pystr) (ks2 : list pystr) :
  distinct (ks1 ++ k :: ks2) = true -> existsb (streq k) ks1 = false.
Proof.
  induction ks1 as [|a ks1 IH]; [reflexivity|]. cbn [app distinct existsb].
  intros H. apply andb_true_iff in H. destruct H as [Ha Hd].
  rewrite (IH Hd), orb_false_r.
  apply negb_true_iff in Ha. rewrite existsb_app in Ha.
  apply orb_false_iff in Ha. destruct Ha as [_ Ha]. cbn [existsb] in Ha.
  apply orb_false_iff in Ha. destruct Ha as [Ha _].
  apply streq_neq. intros ->. rewrite streq_refl in Ha. discriminate Ha.
Qed.

Lemma dict_set_fresh (k : pystr) (v : json) (acc : dict) :
  existsb (streq k) (map fst acc) = false -> dict_set k v acc = acc ++ [(k, v)].
Proof.
  induction acc as [|[k' v'] acc IH]; [reflexivity|]. cbn [map fst existsb dict_set app].
  intros H. apply orb_false_iff in H. destruct H as [Hk H].
  rewrite Hk, (IH H). reflexivity.
Qed.

Lemma json_ind_nested (P : json -> Prop) :
  P JNull -> (forall b, P (JBool b)) -> (forall z, P (JInt z)) ->
  (forall l, P (JFloat l)) -> (forall s, P (JStr s)) ->
  (forall xs, Forall P xs -> P (JArr xs)) ->
  (forall d, Forall (fun kv => P (snd kv)) d -> P (JObj d)) ->
  forall v, P v.
Proof.
  intros Hn Hb Hi Hf Hs Ha Ho. fix IH 1. intros [|b|z|l|s|xs|d].
  - exact Hn.
  - apply Hb.
  - apply Hi.
  - apply Hf.
  - apply Hs.
  - apply Ha. induction xs as [|x xs IHxs]; constructor; [apply IH|exact IHxs].
  - apply Ho. induction d as [|[k v] d IHd]; constructor; [apply IH|exact IHd].
Qed.

Lemma str_of_int_head (z : Z) :
  exists c t, str_of_int z = c :: t /\ int_start c = true.
Proof.
  destruct z as [|p|p].
  - exists 48%N, []. split; reflexivity.
  - rewrite str_of_int_pos. destruct (to_uint_head p) as (c & t & E & Hd & _).
    exists c, t. split; [exact E|]. unfold int_start. rewrite Hd. reflexivity.
  - rewrite str_of_int_neg. eexists _, _. split; reflexivity.
Qed.

Lemma int_start_spec (c : char) :
  int_start c = true -> (48 <= c <= 57)%N \/ c = 45%N.
Proof.
  unfold int_start, is_digit, in_range.
  rewrite orb_true_iff, andb_true_iff, !N.leb_le, N.eqb_eq. tauto.
Qed.

Lemma scan_scalar_int (z : Z) (rest : pystr) :
  number_end rest = true ->
  scan_scalar (str_of_int z ++ rest) = Some (JInt z, rest).
Proof.
  intros Hend. pose proof (scan_number_int z rest Hend) as Hn.
  destruct (str_of_int_head z) as (c & t & E & Hc).
  apply int_start_spec in Hc.
  rewrite E in *. cbn [app] in *. unfold scan_scalar, scan_constant.
  change (lit "null") with (110%N :: lit "ull").
  change (lit "true") with (116%N :: lit "rue").
  change (lit "false") with (102%N :: lit "alse").
  rewrite !(JsonDecoderShape.startswith_head_ne c) by lia.
  cbn [or_else]. rewrite Hn. reflexivity.
Qed.

Lemma scan_once_int (f : nat) (z : Z) (rest : pystr) :
  number_end rest = true ->
  scan_once (S f) (str_of_int z ++ rest) = Scanned (JInt z) rest.
Proof.
  intros Hend. pose proof (scan_scalar_int z rest Hend) as Hn.
  destruct (str_of_int_head z) as (c & t & E & Hc).
  apply int_start_spec in Hc.
  rewrite E in *. cbn [app] in *. rewrite scan_once_eq.
  destruct (N.eqb_spec c 34); [lia|].
  destruct (N.eqb_spec c 123); [lia|].
  destruct (N.eqb_spec c 91); [lia|].
  rewrite Hn. reflexivity.
Qed.

Lemma startswith_app (p rest : pystr) : startswith (p ++ rest) p = true.
Proof.
  induction p as [|c p IH]; [destruct rest; reflexivity|].
  cbn [app startswith]. rewrite N.eqb_refl. exact IH.
Qed.

Lemma scan_constant_app (name rest : pystr) (v : json) :
  scan_constant (name ++ rest) name v = Some (v, rest).
Proof.
  unfold scan_constant. rewrite startswith_app, drop_app_length. reflexivity.
Qed.

Lemma scan_constant_other (c : char) (t : pystr) (d : char) (p : pystr) (v : json) :
  c <> d -> scan_constant (c :: t) (d :: p) v = None.
Proof.
  intros Hne. unfold scan_constant.
  rewrite (JsonDecoderShape.startswith_head_ne c t d p Hne). reflexivity.
Qed.

Lemma scan_once_null (f : nat) (rest : pystr) :
  scan_once (S f) (lit "null" ++ rest) = Scanned JNull rest.
Proof.
  rewrite scan_once_eq. change (lit "null" ++ rest) with (110%N :: lit "ull" ++ rest).
  cbn [N.eqb Pos.eqb]. change (110%N :: lit "ull" ++ rest) with (lit "null" ++ rest).
  unfold scan_scalar. rewrite scan_constant_app. reflexivity.
Qed.

Lemma scan_once_true (f : nat) (rest : pystr) :
  scan_once (S f) (lit "true" ++ rest) = Scanned (JBool true) rest.
Proof.
  rewrite scan_once_eq. change (lit "true" ++ rest) with (116%N :: lit "rue" ++ rest).
  cbn [N.eqb Pos.eqb]. unfold scan_scalar.
  change (lit "null") with (110%N :: lit "ull").
  rewrite (scan_constant_other 116%N _ 110%N) by discriminate.
  change (116%N :: lit "rue" ++ rest) with (lit "true" ++ rest).
  rewrite scan_constant_app. reflexivity.
Qed.

Lemma scan_once_false (f : nat) (rest : pystr) :
  scan_once (S f) (lit "false" ++ rest) = Scanned (JBool false) rest.
Proof.
  rewrite scan_once_eq. change (lit "false" ++ rest) with (102%N :: lit "alse" ++ rest).
  cbn [N.eqb Pos.eqb]. unfold scan_scalar.
  change (lit "null") with (110%N :: lit "ull").
  change (lit "true") with (116%N :: lit "rue").
  rewrite (scan_constant_other 102%N _ 110%N) by discriminate.
  rewrite (scan_constant_other 102%N _ 116%N) by discriminate.
  change (102%N :: lit "alse" ++ rest) with (lit "false" ++ rest).
  rewrite scan_constant_app. reflexivity.
Qed.

Lemma scan_once_str (f : nat) (s rest : pystr) :
  scan_once (S f) (encode_string s ++ rest) = Scanned (JStr s) rest.
Proof.
  unfold encode_string. rewrite <- !app_assoc. cbn [app].
  rewrite scan_once_eq. cbn [N.eqb Pos.eqb].
  rewrite scan_string_encoded. reflexivity.
Qed.

Lemma value_start_not_ws (c : char) : value_start c = true -> is_ws c = false.
Proof.
  intros Hv. destruct (is_ws c) eqn:E; [|reflexivity].
  apply JsonDecoderShape.is_ws_isspace, JsonDecoderShape.isspace_not_value_start in E.
  congruence.
Qed.

Lemma skip_ws_spaces (n : nat) (c : char) (r : pystr) :
  is_ws c = false -> skip_ws (repeat 32%N n ++ c :: r) = c :: r.
Proof.
  intros Hc. induction n as [|n IH]; cbn [repeat app].
  - unfold skip_ws. cbn [lstrip_by]. rewrite Hc. reflexivity.
  - exact IH.
Qed.

Lemma skip_ws_newline_indent (n : nat) (c : char) (r : pystr) :
  is_ws c = false -> skip_ws (newline_indent n ++ c :: r) = c :: r.
Proof.
  intros Hc. unfold newline_indent, NL. cbn [app].
  exact (skip_ws_spaces (2 * n) c r Hc).
Qed.

Lemma skip_ws_keep (c : char) (r : pystr) : is_ws c = false -> skip_ws (c :: r) = c :: r.
Proof. intros Hc. exact (skip_ws_spaces 0 c r Hc). Qed.

Lemma skip_ws_space (c : char) (r : pystr) :
  is_ws c = false -> skip_ws (32%N :: c :: r) = c :: r.
Proof. intros Hc. exact (skip_ws_spaces 1 c r Hc). Qed.

Ltac as_chars := change (@cons N) with (@cons char) in *.

Section Values.

Variable float_repr : pystr -> pystr.

Local Abbreviation dump := (JsonEncoder.dump float_repr).
Local Abbreviation reads_back := (dump_reads_back float_repr).
Local Abbreviation items_tail := (dump_items_tail float_repr).
Local Abbreviation SEP l := (lit "," ++ newline_indent (S l)).
Local Abbreviation item l :=
  (fun kv : pystr * json => encode_string (fst kv) ++ lit ": " ++ dump (S l) (snd kv)).

Lemma dump_head (l : nat) (v : json) :
  float_free v = true ->
  exists c t, dump l v = c :: t /\ value_start c = true.
Proof.
  destruct v as [|[|]|z|x|s|[|x xs]|[|kv d]]; intros Hff;
    try discriminate Hff; try (eexists _, _; split; reflexivity).
  destruct (str_of_int_head z) as (c & t & E & Hc).
  exists c, t. split; [exact E|].
  apply int_start_spec in Hc. unfold value_start, is_digit, in_range.
  rewrite !orb_true_iff, andb_true_iff, !N.leb_le, !N.eqb_eq. lia.
Qed.

Lemma join_dump_head (sep : pystr) (l : nat) (x : json) (xs : list json) (R : pystr) :
  float_free x = true ->
  exists c t,
    join sep (map (dump l) (x :: xs)) ++ R = c :: t
    /\ value_start c = true.
Proof.
  intros Hff. destruct (dump_head l x Hff) as (c & t & E & Hc).
  destruct xs as [|x' xs]; cbn [map join]; rewrite E; eexists _, _;
    (split; [reflexivity|exact Hc]).
Qed.

Lemma array_items_dump (l : nat) (rest : pystr) (xs : list json) :
  forall (x : json) (acc : list json),
    Forall reads_back (x :: xs) ->
    forallb float_free (x :: xs) = true ->
    forallb keys_distinct (x :: xs) = true ->
    exists f,
      array_items f
        (join (SEP l) (map (dump (S l)) (x :: xs))
         ++ newline_indent l ++ lit "]" ++ rest) acc
      = Scanned (JArr (rev acc ++ x :: xs)) rest.
Proof.
  induction xs as [|x' xs IH]; intros x acc HP Hff Hkd;
    inversion HP as [|? ? Hx HP']; subst;
    cbn [forallb] in Hff, Hkd;
    apply andb_true_iff in Hff; destruct Hff as [Hfx Hff];
    apply andb_true_iff in Hkd; destruct Hkd as [Hkx Hkd].
  - cbn [map join].
    destruct (Hx Hfx Hkx (S l) (newline_indent l ++ lit "]" ++ rest) eq_refl)
      as [f Hf].
    exists (S f). rewrite array_items_eq, Hf.
    change (lit "]" ++ rest) with (93%N :: rest). as_chars.
    rewrite (skip_ws_newline_indent l 93%N rest eq_refl).
    cbn [N.eqb Pos.eqb rev]. reflexivity.
  - destruct (IH x' (x :: acc) HP' Hff Hkd) as [f2 Hf2].
    apply andb_true_iff in Hff. destruct Hff as [Hfx' _].
    destruct (join_dump_head (SEP l) (S l) x' xs
                (newline_indent l ++ lit "]" ++ rest) Hfx')
      as (c & t & E & Hc).
    change (join (SEP l) (map (dump (S l)) (x :: x' :: xs)))
      with (dump (S l) x ++ SEP l ++ join (SEP l) (map (dump (S l)) (x' :: xs))).
    rewrite <- !app_assoc. rewrite E in Hf2 |- *.
    destruct (Hx Hfx Hkx (S l) (lit "," ++ newline_indent (S l) ++ c :: t) eq_refl)
      as [f1 Hf1].
    exists (S (Nat.max f1 f2)). rewrite array_items_eq.
    rewrite (scan_once_more f1 (Nat.max f1 f2) _ _ _ Hf1) by lia.
    change (lit "," ++ newline_indent (S l) ++ c :: t)
      with (44%N :: newline_indent (S l) ++ c :: t). as_chars.
    rewrite (skip_ws_keep 44%N _ eq_refl). cbn [N.eqb Pos.eqb].
    rewrite (skip_ws_newline_indent (S l) c t (value_start_not_ws c Hc)).
    rewrite (array_items_more f2 (Nat.max f1 f2) _ _ _ _ Hf2) by lia.
    cbn [rev]. rewrite <- app_assoc. reflexivity.
Qed.

Lemma item_text (l : nat) (k : pystr) (v : json) (R : pystr) :
  item l (k, v) ++ R
  = 34%N :: flat_map encode_char k ++ 34%N :: 58%N :: 32%N :: dump (S l) v ++ R.
Proof.
  cbn [fst snd]. unfold encode_string. rewrite <- !app_assoc. reflexivity.
Qed.

Lemma join_items_text (l : nat) (k : pystr) (v : json) (d : dict) (R : pystr) :
  join (SEP l) (map (item l) ((k, v) :: d)) ++ R = 34%N :: items_tail l k v d R.
Proof.
  unfold dump_items_tail. destruct d as [|kv d].
  - cbn [map join]. apply item_text.
  - change (join (SEP l) (map (item l) ((k, v) :: kv :: d)))
      with (item l (k, v) ++ SEP l ++ join (SEP l) (map (item l) (kv :: d))).
    rewrite <- app_assoc, item_text, <- app_assoc. reflexivity.
Qed.

Lemma object_items_dump (l : nat) (rest : pystr) (d : dict) :
  forall (k : pystr) (v : json) (acc : dict),
    Forall (fun kv => reads_back (snd kv)) ((k, v) :: d) ->
    forallb (fun kv => float_free (snd kv)) ((k, v) :: d) = true ->
    forallb (fun kv => keys_distinct (snd kv)) ((k, v) :: d) = true ->
    distinct (map fst (acc ++ (k, v) :: d)) = true ->
    exists f,
      object_items f (items_tail l k v d (newline_indent l ++ lit "}" ++ rest)) acc
      = Scanned (JObj (acc ++ (k, v) :: d)) rest.
Proof.
  induction d as [|[k' v'] d IH]; intros k v acc HP Hff Hkd Hdis;
    inversion HP as [|? ? Hx HP']; subst;
    cbn [forallb snd] in Hff, Hkd; cbn [snd] in Hx;
    apply andb_true_iff in Hff; destruct Hff as [Hfx Hff];
    apply andb_true_iff in Hkd; destruct Hkd as [Hkx Hkd];
    destruct (dump_head (S l) v Hfx) as (c & u & E & Hc);
    pose proof (value_start_not_ws c Hc) as Hws;
    assert (dict_set k v acc = acc ++ [(k, v)]) as Hset
      by (apply dict_set_fresh;
          rewrite map_app in Hdis; exact (distinct_app_fresh _ _ _ Hdis));
    unfold dump_items_tail.
  - destruct (Hx Hfx Hkx (S l) (newline_indent l ++ lit "}" ++ rest) eq_refl)
      as [f Hf].
    exists (S f). rewrite object_items_eq, scan_string_encoded.
    rewrite (skip_ws_keep 58%N _ eq_refl). cbn [N.eqb Pos.eqb].
    rewrite E in Hf |- *. rewrite <- app_comm_cons in Hf |- *.
    as_chars. rewrite (skip_ws_space c _ Hws), Hf.
    change (lit "}" ++ rest) with (125%N :: rest). as_chars.
    rewrite (skip_ws_newline_indent l 125%N rest eq_refl).
    cbn [N.eqb Pos.eqb]. rewrite Hset. reflexivity.
  - assert (distinct (map fst ((acc ++ [(k, v)]) ++ (k', v') :: d)) = true) as Hdis'
      by (rewrite <- app_assoc; exact Hdis).
    destruct (IH k' v' (acc ++ [(k, v)]) HP' Hff Hkd Hdis') as [f2 Hf2].
    rewrite <- !app_assoc. rewrite join_items_text.
    set (t' := items_tail l k' v' d _) in Hf2 |- *.
    destruct (Hx Hfx Hkx (S l) (lit "," ++ newline_indent (S l) ++ 34%N :: t') eq_refl)
      as [f1 Hf1].
    exists (S (Nat.max f1 f2)). rewrite object_items_eq, scan_string_encoded.
    rewrite (skip_ws_keep 58%N _ eq_refl). cbn [N.eqb Pos.eqb].
    rewrite E in Hf1 |- *. rewrite <- app_comm_cons in Hf1 |- *.
    as_chars. rewrite (skip_ws_space c _ Hws).
    rewrite (scan_once_more f1 (Nat.max f1 f2) _ _ _ Hf1) by lia.
    change (lit "," ++ newline_indent (S l) ++ 34%N :: t')
      with (44%N :: newline_indent (S l) ++ 34%N :: t'). as_chars.
    rewrite (skip_ws_keep 44%N _ eq_refl). cbn [N.eqb Pos.eqb].
    rewrite (skip_ws_newline_indent (S l) 34%N t' eq_refl). cbn [N.eqb Pos.eqb].
    rewrite Hset.
    rewrite (object_items_more f2 (Nat.max f1 f2) _ _ _ _ Hf2) by lia.
    rewrite <- app_assoc. reflexivity.
Qed.

(** Every value without a float, whose mappings have one entry per key,
    is read back from its dump. *)
Lemma scan_once_dump (v : json) : reads_back v.
Proof.
  induction v as [|b|z|x|s|xs IH|d IH] using json_ind_nested;
    intros Hff Hkd l rest Hend.
  - exists 1. apply scan_once_null.
  - exists 1. destruct b; [apply scan_once_true|apply scan_once_false].
  - exists 1. apply scan_once_int. exact Hend.
  - discriminate Hff.
  - exists 1. apply scan_once_str.
  - destruct xs as [|x xs]; [exists 1; reflexivity|].
    cbn [float_free keys_distinct] in Hff, Hkd.
    destruct (array_items_dump l rest xs x [] IH Hff Hkd) as [f Hf].
    cbn [forallb] in Hff. apply andb_true_iff in Hff. destruct Hff as [Hfx _].
    destruct (join_dump_head (SEP l) (S l) x xs
                (newline_indent l ++ lit "]" ++ rest) Hfx) as (c & t & E & Hc).
    exists (S f).
    change (dump l (JArr (x :: xs)))
      with (lit "[" ++ newline_indent (S l)
            ++ join (SEP l) (map (dump (S l)) (x :: xs))
            ++ newline_indent l ++ lit "]").
    rewrite <- !app_assoc. rewrite E in Hf |- *.
    change (lit "[" ++ newline_indent (S l) ++ c :: t)
      with (91%N :: newline_indent (S l) ++ c :: t). as_chars.
    rewrite scan_once_eq. cbn [N.eqb Pos.eqb].
    rewrite (skip_ws_newline_indent (S l) c t (value_start_not_ws c Hc)).
    replace ((c =? 93)%N) with false; [exact Hf|].
    symmetry. apply N.eqb_neq. intros ->. discriminate Hc.
  - destruct d as [|[k v] d]; [exists 1; reflexivity|].
    cbn [float_free keys_distinct] in Hff, Hkd.
    apply andb_true_iff in Hkd. destruct Hkd as [Hdis Hkd].
    destruct (object_items_dump l rest d k v [] IH Hff Hkd Hdis) as [f Hf].
    exists (S f).
    change (dump l (JObj ((k, v) :: d)))
      with (lit "{" ++ newline_indent (S l)
            ++ join (SEP l) (map (item l) ((k, v) :: d))
            ++ newline_indent l ++ lit "}").
    rewrite <- !app_assoc. rewrite join_items_text.
    set (t := items_tail l k v d _) in Hf |- *.
    change (lit "{" ++ newline_indent (S l) ++ 34%N :: t)
      with (123%N :: newline_indent (S l) ++ 34%N :: t). as_chars.
    rewrite scan_once_eq. cbn [N.eqb Pos.eqb].
    rewrite (skip_ws_newline_indent (S l) 34%N t eq_refl). cbn [N.eqb Pos.eqb].
    exact Hf.
Qed.

End Values.

(** *** The characters of a dump *)

Lemma join_Forall (P : char -> Prop) (sep : pystr) (xs : list pystr) :
  Forall P sep -> Forall (Forall P) xs -> Forall P (join sep xs).
Proof.
  intros Hsep Hxs. induction Hxs as [|x xs Hx Hxs IH]; [constructor|].
  destruct xs as [|x' xs]; [exact Hx|].
  change (join sep (x :: x' :: xs)) with (x ++ sep ++ join sep (x' :: xs)).
  rewrite !Forall_app. auto.
Qed.

Section DumpChars.

Variable float_repr : pystr -> pystr.
Variable P : char -> Prop.
Hypothesis P_printable : forall c : char, (32 <= c < 127)%N -> P c.
Hypothesis P_newline : P 10%N.

Lemma hex_digit_printable (n : N) : (n < 16)%N -> P (hex_digit n).
Proof using P_printable.
  intros Hn. apply P_printable. unfold hex_digit.
  destruct (N.ltb_spec n 10); lia.
Qed.

Lemma encode_char_chars (c : char) :
  ((32 <= c)%N -> P c) -> Forall P (encode_char c).
Proof using P_printable.
  intros Hc. unfold encode_char.
  repeat match goal with
         | |- context [if (c =? ?k)%N then _ else _] =>
             destruct (c =? k)%N;
             [repeat constructor; apply P_printable; lia|]
         end.
  destruct (N.ltb_spec c 32) as [Hlt|Hge].
  - repeat constructor; try (apply P_printable; lia); apply hex_digit_printable.
    + apply N.Div0.div_lt_upper_bound. lia.
    + apply N.mod_lt. discriminate.
  - repeat constructor. apply Hc. exact Hge.
Qed.

Lemma encode_string_chars (s : pystr) :
  Forall (fun c : char => (32 <= c)%N -> P c) s -> Forall P (encode_string s).
Proof using P_printable.
  intros Hs. unfold encode_string. rewrite !Forall_app. split; [|split].
  - repeat constructor. apply P_printable. lia.
  - apply Forall_flat_map. eapply Forall_impl; [exact Hs|].
    intros c Hc. apply encode_char_chars. exact Hc.
  - repeat constructor. apply P_printable. lia.
Qed.

Lemma str_of_int_chars (z : Z) : Forall P (str_of_int z).
Proof using P_printable.
  assert (forall p, Forall P (uint_chars (Pos.to_uint p))) as Hp.
  { intros p. apply List.Forall_forall. intros c Hc.
    pose proof (uint_chars_digits (Pos.to_uint p)) as Hd.
    rewrite forallb_forall in Hd. specialize (Hd c Hc).
    unfold is_digit, in_range in Hd.
    apply andb_true_iff in Hd. rewrite !N.leb_le in Hd.
    apply P_printable. lia. }
  destruct z as [|p|p].
  - change (str_of_int 0) with [48%N]. repeat constructor. apply P_printable. lia.
  - rewrite str_of_int_pos. apply Hp.
  - rewrite str_of_int_neg. constructor; [apply P_printable; lia|apply Hp].
Qed.

Lemma newline_indent_chars (n : nat) : Forall P (newline_indent n).
Proof using P_printable P_newline.
  unfold newline_indent, NL. constructor; [exact P_newline|].
  induction (2 * n) as [|m IH]; constructor; [apply P_printable; lia|exact IH].
Qed.

Lemma lit_chars (s : pystr) :
  forallb (in_range 32 126) s = true -> Forall P s.
Proof using P_printable.
  intros Hs. apply List.Forall_forall. intros c Hc.
  rewrite forallb_forall in Hs. specialize (Hs c Hc).
  unfold in_range in Hs. apply andb_true_iff in Hs. rewrite !N.leb_le in Hs.
  apply P_printable. lia.
Qed.

(** The characters of a dump are line feeds, printable ASCII characters
    and the characters from 32 on of the strings and keys of the value. *)
Lemma dump_chars (v : json) :
  forall l : nat,
    float_free v = true ->
    Forall (fun c : char => (32 <= c)%N -> P c) (json_chars v) ->
    Forall P (dump float_repr l v).
Proof using P_printable P_newline.
  induction v as [|b|z|x|s|xs IH|d IH] using json_ind_nested; intros l Hff Hs.
  - apply lit_chars. reflexivity.
  - destruct b; apply lit_chars; reflexivity.
  - apply str_of_int_chars.
  - discriminate Hff.
  - apply encode_string_chars. exact Hs.
  - destruct xs as [|x xs]; [apply lit_chars; reflexivity|].
    change (dump float_repr l (JArr (x :: xs)))
      with (lit "[" ++ newline_indent (S l)
            ++ join (lit "," ++ newline_indent (S l))
                 (map (dump float_repr (S l)) (x :: xs))
            ++ newline_indent l ++ lit "]").
    cbn [float_free json_chars] in Hff, Hs.
    rewrite !Forall_app.
    repeat split; try apply newline_indent_chars; try (apply lit_chars; reflexivity).
    apply join_Forall.
    + rewrite Forall_app. split; [apply lit_chars; reflexivity|].
      apply newline_indent_chars.
    + apply Forall_flat_map in Hs. rewrite forallb_forall in Hff.
      apply Forall_map. apply List.Forall_forall. intros y Hy.
      rewrite List.Forall_forall in IH, Hs.
      apply (IH y Hy); [apply Hff; exact Hy|apply Hs; exact Hy].
  - destruct d as [|kv d]; [apply lit_chars; reflexivity|].
    change (dump float_repr l (JObj (kv :: d)))
      with (lit "{" ++ newline_indent (S l)
            ++ join (lit "," ++ newline_indent (S l))
                 (map (fun kv => encode_string (fst kv) ++ lit ": "
                                 ++ dump float_repr (S l) (snd kv)) (kv :: d))
            ++ newline_indent l ++ lit "}").
    cbn [float_free json_chars] in Hff, Hs.
    rewrite !Forall_app.
    repeat split; try apply newline_indent_chars; try (apply lit_chars; reflexivity).
    apply join_Forall.
    + rewrite Forall_app. split; [apply lit_chars; reflexivity|].
      apply newline_indent_chars.
    + apply Forall_flat_map in Hs. rewrite forallb_forall in Hff.
      apply Forall_map. apply List.Forall_forall. intros y Hy.
      rewrite List.Forall_forall in IH, Hs.
      specialize (Hs y Hy). apply Forall_app in Hs. destruct Hs as [Hk Hv].
      rewrite !Forall_app. repeat split.
      * apply encode_string_chars. exact Hk.
      * apply lit_chars. reflexivity.
      * apply (IH y Hy); [apply Hff; exact Hy|exact Hv].
Qed.

End DumpChars.

Lemma universal_newlines_id (s : pystr) :
  Forall (fun c : char => c <> 13%N) s -> universal_newlines s = s.
Proof.
  induction 1 as [|c s Hc Hs IH]; [reflexivity|]. cbn [universal_newlines].
  apply N.eqb_neq in Hc. rewrite Hc, IH. reflexivity.
Qed.

Lemma dump_no_return (float_repr : pystr -> pystr) (l : nat) (v : json) :
  float_free v = true ->
  universal_newlines (dump float_repr l v) = dump float_repr l v.
Proof.
  intros Hff. apply universal_newlines_id.
  apply dump_chars; try assumption; try (intros; lia).
  apply Forall_true. intros c Hc. lia.
Qed.

Lemma dump_encodable (float_repr : pystr -> pystr) (l : nat) (v : json) :
  float_free v = true -> utf8_encodable (json_chars v) = true ->
  utf8_encodable (dump float_repr l v) = true.
Proof.
  intros Hff Hs. unfold utf8_encodable in *.
  apply forallb_forall. apply List.Forall_forall.
  apply dump_chars; try assumption.
  - intros c Hc. unfold in_range. apply andb_true_iff. split.
    + apply negb_true_iff, andb_false_iff. left. apply N.leb_gt. lia.
    + apply N.leb_le. lia.
  - reflexivity.
  - rewrite forallb_forall in Hs. apply List.Forall_forall. intros c Hc _.
    apply Hs. exact Hc.
Qed.

(** A value is decoded from its own dump. *)
Lemma loads_dump (float_repr : pystr -> pystr) (v : json) :
  float_free v = true -> keys_distinct v = true ->
  json_loads (dump float_repr 0 v) = Some v.
Proof.
  intros Hff Hkd. unfold json_loads, loads.
  destruct (dump_head float_repr 0 v Hff) as (c & t & E & Hc).
  destruct (scan_once_dump float_repr v Hff Hkd 0 [] eq_refl) as [f Hf].
  rewrite app_nil_r in Hf.
  pose proof (JsonDecoderFacts.loads_fuel_enough (dump float_repr 0 v)) as Hfuel.
  set (s := dump float_repr 0 v) in *.
  assert (skip_ws s = s) as Hskip
    by (rewrite E; apply skip_ws_keep, value_start_not_ws; exact Hc).
  rewrite Hskip in *.
  rewrite (scan_once_any_fuel f (loads_fuel s) s v [] Hf Hfuel).
  replace (startswith s [65279%N]) with false; [reflexivity|].
  rewrite E. symmetry. apply JsonDecoderShape.startswith_head_ne.
  intros ->. discriminate Hc.
Qed.

End JsonRoundTrip.

(** ** [save_json] and [load_json] *)

Section PersistenceFacts.

Variable float_repr : pystr -> pystr.
Variable partial_text : json -> pystr.
Variable encode_error : json -> exn.
Variable decode_error : pystr -> exn.

Local Abbreviation save := (save_json float_repr partial_text encode_error).
Local Abbreviation load := (load_json decode_error).

Lemma save_json_ok (path : pystr) (obj : json) (fs : FileSystem) :
  float_free obj = true -> utf8_encodable (json_chars obj) = true ->
  save path obj fs = (Ok tt, write_file path (json_dumps float_repr obj) fs).
Proof.
  intros Hff Henc. unfold save_json, json_dumps.
  rewrite (JsonRoundTrip.dump_encodable float_repr 0 obj Hff Henc). reflexivity.
Qed.

Lemma loads_written (obj : json) :
  float_free obj = true -> keys_distinct obj = true ->
  json_loads (universal_newlines (json_dumps float_repr obj)) = Some obj.
Proof.
  intros Hff Hkd. unfold json_dumps.
  rewrite (JsonRoundTrip.dump_no_return float_repr 0 obj Hff).
  apply JsonRoundTrip.loads_dump; assumption.
Qed.

Lemma write_file_same (path text : pystr) (fs : FileSystem) :
  write_file path text fs path = Some text.
Proof. unfold write_file. rewrite streq_refl. reflexivity. Qed.

Lemma write_file_other (path text : pystr) (fs : FileSystem) (p : pystr) :
  p <> path -> write_file path text fs p = fs p.
Proof. intros Hp. unfold write_file. rewrite (streq_neq p path Hp). reflexivity. Qed.

(** X11. What [save_json] writes, [load_json] reads back: saving a value
    that holds no float, whose mappings have one entry per key and whose
    strings hold no surrogate succeeds, and loading the same path then
    returns that very value; no other file is touched. *)
Theorem save_json_load_json (path : pystr) (obj : json) (fs : FileSystem) :
  float_free obj = true ->
  keys_distinct obj = true ->
  utf8_encodable (json_chars obj) = true ->
  exists fs',
    save path obj fs = (Ok tt, fs')
    /\ load path fs' = (Ok obj, fs')
    /\ (forall p, p <> path -> fs' p = fs p).
Proof.
  intros Hff Hkd Henc. exists (write_file path (json_dumps float_repr obj) fs).
  split; [exact (save_json_ok path obj fs Hff Henc)|]. split.
  - unfold load_json. rewrite write_file_same, (loads_written obj Hff Hkd).
    reflexivity.
  - intros p Hp. apply write_file_other. exact Hp.
Qed.

End PersistenceFacts.

Lemma save_json_load_json_witness :
  exists fs',
    save_json (fun l => l) (fun _ => []) (fun _ => Examples.boom)
      INBOX_FILE get_sample_inbox (fun _ => None) = (Ok tt, fs')
    /\ load_json (fun _ => Examples.boom) INBOX_FILE fs' = (Ok get_sample_inbox, fs')
    /\ (forall p, p <> INBOX_FILE -> fs' p = None).
Proof.
  exact (save_json_load_json (fun l => l) (fun _ => []) (fun _ => Examples.boom)
           (fun _ => Examples.boom) INBOX_FILE get_sample_inbox (fun _ => None)
           eq_refl eq_refl eq_refl).
Defined.

(** ** The start-up of the application *)

Section StartupFacts.

Variable float_repr : pystr -> pystr.
Variable partial_text : json -> pystr.
Variable encode_error : json -> exn.
Variable decode_error : pystr -> exn.

Local Abbreviation seed_file := (seed float_repr partial_text encode_error).
Local Abbreviation seeded_fs := (seeded float_repr).
Local Abbreviation load := (load_json decode_error).
Local Abbreviation start :=
  (load_or_initialize float_repr partial_text encode_error decode_error).

Lemma seed_eq (path : pystr) (default : json) (fs : FileSystem) :
  float_free default = true -> utf8_encodable (json_chars default) = true ->
  seed_file path default fs = (Ok tt, seeded_fs path default fs).
Proof.
  intros Hff Henc. unfold seed, seeded, path_exists. munfold.
  destruct (fs path) as [c|]; [reflexivity|]. cbn [negb].
  apply save_json_ok; assumption.
Qed.

Lemma seeded_same (path : pystr) (default : json) (fs : FileSystem) :
  seeded_fs path default fs path
  = Some (match fs path with
          | Some c => c
          | None => json_dumps float_repr default
          end).
Proof.
  unfold seeded. destruct (fs path) as [c|] eqn:E; [exact E|].
  apply write_file_same.
Qed.

Lemma seeded_other (path : pystr) (default : json) (fs : FileSystem) (p : pystr) :
  p <> path -> seeded_fs path default fs p = fs p.
Proof.
  intros Hp. unfold seeded. destruct (fs path); [reflexivity|].
  apply write_file_other. exact Hp.
Qed.

(** The file system after the three seedings. *)
Local Abbreviation ready fs :=
  (seeded_fs RESULTS_FILE EMPTY_RESULTS
     (seeded_fs INBOX_FILE get_sample_inbox
        (seeded_fs PROMPTS_FILE DEFAULT_PROMPTS fs))).

Lemma load_or_initialize_eq (fs : FileSystem) :
  start fs
  = (prompts ← load PROMPTS_FILE;
     inbox ← load INBOX_FILE;
     results ← load RESULTS_FILE;
     mret (prompts, inbox, results)) (ready fs).
Proof.
  unfold load_or_initialize. munfold.
  rewrite !seed_eq by reflexivity. reflexivity.
Qed.

Lemma ready_file (fs : FileSystem) (path : pystr) (default : json) :
  (path = PROMPTS_FILE /\ default = DEFAULT_PROMPTS)
  \/ (path = INBOX_FILE /\ default = get_sample_inbox)
  \/ (path = RESULTS_FILE /\ default = EMPTY_RESULTS) ->
  ready fs path
  = Some (match fs path with
          | Some c => c
          | None => json_dumps float_repr default
          end).
Proof.
  intros [[-> ->]|[[-> ->]|[-> ->]]].
  - rewrite !seeded_other by discriminate. apply seeded_same.
  - rewrite seeded_other by discriminate. rewrite seeded_same.
    rewrite seeded_other by discriminate. reflexivity.
  - rewrite seeded_same. rewrite !seeded_other by discriminate. reflexivity.
Qed.

Lemma load_ready (fs : FileSystem) (path : pystr) (default : json) :
  float_free default = true -> keys_distinct default = true ->
  ready fs path
  = Some (match fs path with
          | Some c => c
          | None => json_dumps float_repr default
          end) ->
  load path (ready fs)
  = (match stored fs path default with
     | Some v => Ok v
     | None =>
         Raise (decode_error (match fs path with Some c => c | None => [] end))
     end, ready fs).
Proof.
  intros Hff Hkd Hr. unfold load_json, stored. rewrite Hr.
  destruct (fs path) as [c|].
  - destruct (json_loads (universal_newlines c)); reflexivity.
  - rewrite (loads_written float_repr default Hff Hkd). reflexivity.
Qed.

Lemma load_or_initialize_run (fs : FileSystem) :
  start fs
  = (match stored fs PROMPTS_FILE DEFAULT_PROMPTS with
     | None =>
         Raise (decode_error
                  (match fs PROMPTS_FILE with Some c => c | None => [] end))
     | Some prompts =>
         match stored fs INBOX_FILE get_sample_inbox with
         | None =>
             Raise (decode_error
                      (match fs INBOX_FILE with Some c => c | None => [] end))
         | Some inbox =>
             match stored fs RESULTS_FILE EMPTY_RESULTS with
             | None =>
                 Raise (decode_error
                          (match fs RESULTS_FILE with Some c => c | None => [] end))
             | Some results => Ok (prompts, inbox, results)
             end
         end
     end, ready fs).
Proof.
  rewrite load_or_initialize_eq. munfold.
  rewrite (load_ready fs PROMPTS_FILE DEFAULT_PROMPTS eq_refl eq_refl)
    by (apply ready_file; tauto).
  destruct (stored fs PROMPTS_FILE DEFAULT_PROMPTS) as [p|]; [|reflexivity].
  rewrite (load_ready fs INBOX_FILE get_sample_inbox eq_refl eq_refl)
    by (apply ready_file; tauto).
  destruct (stored fs INBOX_FILE get_sample_inbox) as [i|]; [|reflexivity].
  rewrite (load_ready fs RESULTS_FILE EMPTY_RESULTS eq_refl eq_refl)
    by (apply ready_file; tauto).
  destruct (stored fs RESULTS_FILE EMPTY_RESULTS) as [r|]; reflexivity.
Qed.

Lemma stored_none (fs : FileSystem) (path : pystr) (default : json) :
  stored fs path default = None ->
  exists content,
    fs path = Some content /\ json_loads (universal_newlines content) = None.
Proof.
  unfold stored. destruct (fs path) as [c|]; [|discriminate]. eauto.
Qed.

(** X12. Start-up gives the application, for each of its three data files,
    what the file decodes to when it exists and the shipped default when it
    does not: the default prompts, the sample inbox, and empty lists of
    drafts and analyses.  It succeeds exactly when every file that exists
    decodes. *)
Theorem load_or_initialize_loads (fs : FileSystem) (prompts inbox results : json) :
  fst (start fs) = Ok (prompts, inbox, results)
  <-> stored fs PROMPTS_FILE DEFAULT_PROMPTS = Some prompts
      /\ stored fs INBOX_FILE get_sample_inbox = Some inbox
      /\ stored fs RESULTS_FILE EMPTY_RESULTS = Some results.
Proof.
  rewrite load_or_initialize_run. cbn [fst].
  destruct (stored fs PROMPTS_FILE DEFAULT_PROMPTS) as [p|];
    [|split; [discriminate|intros ([=] & _)]].
  destruct (stored fs INBOX_FILE get_sample_inbox) as [i|];
    [|split; [discriminate|intros (_ & [=] & _)]].
  destruct (stored fs RESULTS_FILE EMPTY_RESULTS) as [r|];
    [|split; [discriminate|intros (_ & _ & [=])]].
  split.
  - intros [= -> -> ->]. auto.
  - intros ([= ->] & [= ->] & [= ->]). reflexivity.
Qed.

(** X13. Start-up never changes a file that exists and writes no file
    other than its three data files; each of the three that was missing
    holds the dump of its default afterwards.  This is so whether the
    loading that follows succeeds or raises. *)
Theorem load_or_initialize_files (fs : FileSystem) :
  (forall path content,
      fs path = Some content -> snd (start fs) path = Some content)
  /\ (forall path,
        path <> PROMPTS_FILE -> path <> INBOX_FILE -> path <> RESULTS_FILE ->
        snd (start fs) path = fs path)
  /\ (fs PROMPTS_FILE = None ->
      snd (start fs) PROMPTS_FILE = Some (json_dumps float_repr DEFAULT_PROMPTS))
  /\ (fs INBOX_FILE = None ->
      snd (start fs) INBOX_FILE = Some (json_dumps float_repr get_sample_inbox))
  /\ (fs RESULTS_FILE = None ->
      snd (start fs) RESULTS_FILE = Some (json_dumps float_repr EMPTY_RESULTS)).
Proof.
  rewrite load_or_initialize_run. cbn [snd].
  assert (forall path, path <> PROMPTS_FILE -> path <> INBOX_FILE ->
                       path <> RESULTS_FILE -> ready fs path = fs path) as Hother
    by (intros path H1 H2 H3; rewrite !seeded_other by assumption; reflexivity).
  split; [|split; [exact Hother|]].
  - intros path content Hc.
    destruct (streq path PROMPTS_FILE) eqn:E1;
      [apply streq_spec in E1; subst path;
       rewrite (ready_file fs PROMPTS_FILE DEFAULT_PROMPTS) by tauto;
       rewrite Hc; reflexivity|].
    destruct (streq path INBOX_FILE) eqn:E2;
      [apply streq_spec in E2; subst path;
       rewrite (ready_file fs INBOX_FILE get_sample_inbox) by tauto;
       rewrite Hc; reflexivity|].
    destruct (streq path RESULTS_FILE) eqn:E3;
      [apply streq_spec in E3; subst path;
       rewrite (ready_file fs RESULTS_FILE EMPTY_RESULTS) by tauto;
       rewrite Hc; reflexivity|].
    rewrite Hother; [exact Hc|intros ->; rewrite streq_refl in *; discriminate ..].
  - repeat split; intros Hn.
    + rewrite (ready_file fs PROMPTS_FILE DEFAULT_PROMPTS) by tauto.
      rewrite Hn. reflexivity.
    + rewrite (ready_file fs INBOX_FILE get_sample_inbox) by tauto.
      rewrite Hn. reflexivity.
    + rewrite (ready_file fs RESULTS_FILE EMPTY_RESULTS) by tauto.
      rewrite Hn. reflexivity.
Qed.

(** X14. A data file that exists and is not one JSON document (an empty
    file, for one) stops the start-up: it raises the decoder's error for
    such a file. *)
Theorem load_or_initialize_corrupt (fs : FileSystem) (path content : pystr) :
  In path [PROMPTS_FILE; INBOX_FILE; RESULTS_FILE] ->
  fs path = Some content ->
  json_loads (universal_newlines content) = None ->
  exists path' content',
    In path' [PROMPTS_FILE; INBOX_FILE; RESULTS_FILE]
    /\ fs path' = Some content'
    /\ json_loads (universal_newlines content') = None
    /\ fst (start fs) = Raise (decode_error content').
Proof.
  intros Hin Hc Hbad. rewrite load_or_initialize_run. cbn [fst].
  assert (stored fs path
            (if streq path PROMPTS_FILE then DEFAULT_PROMPTS
             else if streq path INBOX_FILE then get_sample_inbox
                  else EMPTY_RESULTS) = None) as Hs
    by (unfold stored; rewrite Hc; exact Hbad).
  destruct (stored fs PROMPTS_FILE DEFAULT_PROMPTS) as [p|] eqn:E1.
  2: { destruct (stored_none _ _ _ E1) as (c & Hf & Hl). rewrite Hf.
       exists PROMPTS_FILE, c. cbn [In]. auto. }
  destruct (stored fs INBOX_FILE get_sample_inbox) as [i|] eqn:E2.
  2: { destruct (stored_none _ _ _ E2) as (c & Hf & Hl). rewrite Hf.
       exists INBOX_FILE, c. cbn [In]. auto. }
  destruct (stored fs RESULTS_FILE EMPTY_RESULTS) as [r|] eqn:E3.
  2: { destruct (stored_none _ _ _ E3) as (c & Hf & Hl). rewrite Hf.
       exists RESULTS_FILE, c. cbn [In]. auto 6. }
  exfalso. cbn [In] in Hin. destruct Hin as [<-|[<-|[<-|[]]]];
    vm_compute streq in Hs; congruence.
Qed.

End StartupFacts.

Lemma load_or_initialize_corrupt_witness :
  exists path' content',
    In path' [PROMPTS_FILE; INBOX_FILE; RESULTS_FILE]
    /\ write_file PROMPTS_FILE [] (fun _ => None) path' = Some content'
    /\ json_loads (universal_newlines content') = None
    /\ fst (load_or_initialize (fun l => l) (fun _ => []) (fun _ => Examples.boom)
              (mkExn (lit "JSONDecodeError"))
              (write_file PROMPTS_FILE [] (fun _ => None)))
       = Raise (mkExn (lit "JSONDecodeError") content').
Proof.
  exact (load_or_initialize_corrupt (fun l => l) (fun _ => []) (fun _ => Examples.boom)
           (mkExn (lit "JSONDecodeError"))
           (write_file PROMPTS_FILE [] (fun _ => None)) PROMPTS_FILE []
           (or_introl eq_refl) eq_refl eq_refl).
Defined.

(** ** The ingestion button *)

Lemma dict_set_twice (k : pystr) (v1 v2 : json) (d : dict) :
  dict_set k v2 (dict_set k v1 d) = dict_set k v2 d.
Proof.
  induction d as [|[k' v'] d IH]; cbn [dict_set].
  - rewrite streq_refl. reflexivity.
  - destruct (streq k k') eqn:E; cbn [dict_set]; rewrite E; [reflexivity|].
    rewrite IH. reflexivity.
Qed.

Section IngestButtonFacts.

Variable w : World.
Variable float_repr : pystr -> pystr.
Variable partial_text : json -> pystr.
Variable encode_error : json -> exn.
Variable utcnow : nat -> pystr.

Local Abbreviation button := (ingest_button w float_repr partial_text encode_error utcnow).
Local Abbreviation dumps := (json_dumps float_repr).

(** The entries a run adds, the clock having been read [k] times. *)
Local Abbreviation added k recs :=
  (imap (fun i r => ingest_analysis (utcnow (k + i)) r) recs).

Lemma append_analyses_eq (recs : list dict) :
  forall (d : dict) (xs : list json) (st : AppState),
    dict_get (lit "analyses") d = Some (JArr xs) ->
    append_analyses utcnow recs (JObj d) st
    = (Ok (JObj (dict_set (lit "analyses") (JArr (xs ++ added (app_ticks st) recs)) d)),
       {| app_calls := app_calls st;
          app_files := app_files st;
          app_ticks := app_ticks st + length recs |}).
Proof.
  induction recs as [|r recs IH]; intros d xs st Hd.
  - cbn [append_analyses imap length]. munfold.
    rewrite app_nil_r, (dict_set_same _ _ _ Hd), Nat.add_0_r.
    destruct st; reflexivity.
  - cbn [append_analyses]. unfold analyses_of, subscript. rewrite Hd. munfold.
    unfold now. cbn [with_analyses].
    rewrite (IH _ (xs ++ [ingest_analysis (utcnow (app_ticks st)) r]))
      by apply dict_get_set_eq.
    cbn [app_calls app_files app_ticks length imap].
    rewrite dict_set_twice, <- app_assoc, Nat.add_0_r. cbn [app].
    replace (added (S (app_ticks st)) recs)
      with (imap ((fun i r => ingest_analysis (utcnow (app_ticks st + i)) r) ∘ S) recs)
      by (apply imap_ext; intros i x _; cbn; do 2 f_equal; lia).
    replace (S (app_ticks st) + length recs) with (app_ticks st + S (length recs))
      by lia.
    reflexivity.
Qed.

Lemma run_records (inbox : list dict) (prompts : dict) (cfg : GenConfig)
    (calls : nat) (inbox' recs : list dict) (calls' : nat) :
  run_ingestion_pipeline w inbox prompts cfg calls = (Ok (inbox', recs), calls') ->
  length recs = length inbox
  /\ (forall i r, recs !! i = Some r -> dict_get K_INDEX r = Some (JInt (Z.of_nat i))).
Proof.
  intros Hrun.
  destruct (run_ingestion_pipeline_spec w inbox prompts cfg calls)
    as (inbox2 & recs2 & calls2 & Hrun2 & _ & Hlen & Hturn).
  assert (recs2 = recs) as -> by congruence.
  split; [exact Hlen|]. intros i r Hr.
  assert (i < length inbox) as Hi by (rewrite <- Hlen; eapply lookup_lt_Some; exact Hr).
  destruct (lookup_lt_is_Some_2 inbox i Hi) as [email Hem].
  destruct (Hturn i email Hem) as (rec & email' & k & k' & Hrec & _ & Ht).
  assert (rec = r) as -> by congruence.
  destruct Ht; reflexivity.
Qed.

Lemma ingest_button_eq (inbox : list dict) (prompts : dict) (results : json)
    (st : AppState) (inbox' recs : list dict) (calls' : nat) :
  run_ingestion_pipeline w inbox prompts BUTTON_CONFIG (app_calls st)
  = (Ok (inbox', recs), calls') ->
  utf8_encodable (dumps (JArr (map JObj inbox'))) = true ->
  button inbox prompts results st
  = (results' ← append_analyses utcnow recs results;
     on_files (save_json float_repr partial_text encode_error RESULTS_FILE results');;
     mret (inbox', results'))
      {| app_calls := calls';
         app_files := write_file INBOX_FILE (dumps (JArr (map JObj inbox')))
                        (app_files st);
         app_ticks := app_ticks st |}.
Proof.
  intros Hrun Henc. unfold ingest_button, on_gateway. munfold. rewrite Hrun.
  cbn [fst snd]. unfold on_files at 1, save_json at 1.
  cbn [app_calls app_files app_ticks]. unfold json_dumps in Henc |- *.
  rewrite Henc. reflexivity.
Qed.

(** X15. The ingestion button, pressed when [results] holds a list under
    the key analyses: it runs the pipeline, rewrites the inbox file with
    the processed inbox, appends after the analyses already there one
    entry per email, in the order of the inbox, each of type ingest_batch
    and carrying the record of its email with the time read for it, keeps
    every other key of [results], and rewrites the results file. *)
Theorem ingest_button_appends (inbox : list dict) (prompts d : dict)
    (xs : list json) (st : AppState) (inbox' recs : list dict) (calls' : nat) :
  dict_get (lit "analyses") d = Some (JArr xs) ->
  run_ingestion_pipeline w inbox prompts BUTTON_CONFIG (app_calls st)
  = (Ok (inbox', recs), calls') ->
  let results' :=
    JObj (dict_set (lit "analyses") (JArr (xs ++ added (app_ticks st) recs)) d) in
  utf8_encodable (dumps (JArr (map JObj inbox'))) = true ->
  utf8_encodable (dumps results') = true ->
  button inbox prompts (JObj d) st
  = (Ok (inbox', results'),
     {| app_calls := calls';
        app_files :=
          write_file RESULTS_FILE (dumps results')
            (write_file INBOX_FILE (dumps (JArr (map JObj inbox'))) (app_files st));
        app_ticks := app_ticks st + length inbox |})
  /\ length recs = length inbox
  /\ (forall i r,
        recs !! i = Some r ->
        dict_get K_INDEX r = Some (JInt (Z.of_nat i))
        /\ added (app_ticks st) recs !! i
           = Some (ingest_analysis (utcnow (app_ticks st + i)) r)).
Proof.
  intros Hd Hrun results' Henc1 Henc2.
  destruct (run_records _ _ _ _ _ _ _ Hrun) as [Hlen Hidx].
  split; [|split; [exact Hlen|]].
  - rewrite (ingest_button_eq inbox prompts (JObj d) st inbox' recs calls' Hrun Henc1).
    munfold. rewrite (append_analyses_eq recs d xs _ Hd).
    cbn [app_calls app_files app_ticks]. fold results'.
    unfold on_files, save_json. cbn [app_calls app_files app_ticks].
    unfold json_dumps in Henc2 |- *. rewrite Henc2, Hlen. reflexivity.
  - intros i r Hr. split; [exact (Hidx i r Hr)|].
    rewrite list_lookup_imap, Hr. reflexivity.
Qed.

(** X16. The ingestion button, pressed when [results] holds no list under
    the key analyses (the key is missing, or [results] is no mapping, or
    the value is not a list) and the inbox is not empty: the pipeline has
    run and the inbox file has been rewritten when the first append raises;
    the exception leaves the handler, the clock has not been read and the
    results file is not written. *)
Theorem ingest_button_without_analyses (inbox : list dict) (prompts : dict)
    (results : json) (st : AppState) (e : exn) (inbox' recs : list dict)
    (calls' : nat) :
  inbox <> [] ->
  analyses_of results = Raise e ->
  run_ingestion_pipeline w inbox prompts BUTTON_CONFIG (app_calls st)
  = (Ok (inbox', recs), calls') ->
  utf8_encodable (dumps (JArr (map JObj inbox'))) = true ->
  button inbox prompts results st
  = (Raise e,
     {| app_calls := calls';
        app_files :=
          write_file INBOX_FILE (dumps (JArr (map JObj inbox'))) (app_files st);
        app_ticks := app_ticks st |}).
Proof.
  intros Hne He Hrun Henc.
  destruct (run_records _ _ _ _ _ _ _ Hrun) as [Hlen _].
  rewrite (ingest_button_eq inbox prompts results st inbox' recs calls' Hrun Henc).
  destruct recs as [|r recs];
    [destruct inbox; [contradiction|discriminate Hlen]|].
  cbn [append_analyses]. munfold. rewrite He. reflexivity.
Qed.

End IngestButtonFacts.

Lemma ingest_button_appends_witness :
  exists out st',
    ingest_button Examples.mock_world (fun l => l) (fun _ => [])
      (fun _ => Examples.boom) (fun _ => lit "2025-11-04 10:00:00.000000")
      [Examples.alice] Examples.prompts_ok EMPTY_RESULTS
      {| app_calls := 0; app_files := fun _ => None; app_ticks := 0 |}
    = (Ok out, st')
    /\ app_ticks st' = 1.
Proof.
  destruct (run_ingestion_pipeline Examples.mock_world [Examples.alice]
              Examples.prompts_ok BUTTON_CONFIG 0)
    as [[[inbox' recs]|e] calls'] eqn:Hrun;
    [|vm_compute in Hrun; discriminate Hrun].
  pose proof (ingest_button_appends Examples.mock_world (fun l => l) (fun _ => [])
                (fun _ => Examples.boom) (fun _ => lit "2025-11-04 10:00:00.000000")
                [Examples.alice] Examples.prompts_ok
                [(lit "drafts", JArr []); (lit "analyses", JArr [])] []
                {| app_calls := 0; app_files := fun _ => None; app_ticks := 0 |}
                inbox' recs calls' eq_refl Hrun) as H.
  cbv zeta in H.
  vm_compute in Hrun. injection Hrun as <- <- <-.
  destruct H as (H & _); [vm_compute; reflexivity ..|].
  eexists _, _. split; [exact H|reflexivity].
Defined.

Lemma ingest_button_without_analyses_witness :
  exists st',
    ingest_button Examples.mock_world (fun l => l) (fun _ => [])
      (fun _ => Examples.boom) (fun _ => lit "2025-11-04 10:00:00.000000")
      [Examples.alice] Examples.prompts_ok (JObj [])
      {| app_calls := 0; app_files := fun _ => None; app_ticks := 0 |}
    = (Raise (key_error (lit "analyses")), st')
    /\ app_files st' RESULTS_FILE = None.
Proof.
  destruct (run_ingestion_pipeline Examples.mock_world [Examples.alice]
              Examples.prompts_ok BUTTON_CONFIG 0)
    as [[[inbox' recs]|e] calls'] eqn:Hrun;
    [|vm_compute in Hrun; discriminate Hrun].
  pose proof (ingest_button_without_analyses Examples.mock_world (fun l => l)
                (fun _ => []) (fun _ => Examples.boom)
                (fun _ => lit "2025-11-04 10:00:00.000000")
                [Examples.alice] Examples.prompts_ok (JObj [])
                {| app_calls := 0; app_files := fun _ => None; app_ticks := 0 |}
                (key_error (lit "analyses")) inbox' recs calls'
                ltac:(discriminate) eq_refl Hrun) as H.
  vm_compute in Hrun. injection Hrun as <- <- <-.
  eexists. split; [apply H; vm_compute; reflexivity|reflexivity].
Defined.
